(** * Kinematics simulation engine: State Calculator, Timeline Sampler,
      Crossing Detector, Playback Clock and Graph Editor.

    Shallow embedding of [Simulation.tsx] (the [GraphBuilder] and
    [Simulation] components) together with the constants [TIME_STEP] and
    [MAX_TIME] and the [BodyParams] interface.

    Numbers.  A JavaScript [number] is modelled as an exact rational [Q]:
    the arithmetic of the source is kept expression by expression, the
    rounding of IEEE doubles is not modelled.  Results are therefore
    compared with [==] (equality of rationals).  A division whose divisor
    is zero has no rational value (JavaScript yields an infinity or NaN),
    so division is a partial operation here and the functions that divide
    live in a small error monad.

    The sampling loop is the one place where rounding decides a discrete
    outcome: the number of samples, and whether the crossing test
    succeeds.  The state calculator and the loop are therefore embedded a
    second time over IEEE-754 doubles, in the module [Dbl], and the
    timeline and the meeting point the code computes are described
    there. *)

From Stdlib Require Import QArith Qround Qabs ZArith List Bool String Lia Lqa.
From Stdlib Require Import Setoid Morphisms Sorted Permutation Qminmax.
From Stdlib Require Import PrimFloat FloatOps SpecFloat Uint63.
Import ListNotations.

Set Warnings "-inexact-float".

Local Open Scope Q_scope.

(** ** Results of fallible computations *)

Inductive result (A : Type) : Type :=
| Ok (a : A)
| DivByZero
| OutOfFuel.

Arguments Ok {A} a.
Arguments DivByZero {A}.
Arguments OutOfFuel {A}.

Definition bind {A B : Type} (r : result A) (k : A -> result B) : result B :=
  match r with
  | Ok a => k a
  | DivByZero => DivByZero
  | OutOfFuel => OutOfFuel
  end.

Notation "x <- e ;; k" := (bind e (fun x => k))
  (at level 61, e at next level, right associativity).

(** ** JavaScript number operations over [Q] *)

Module JS.

(** [a <= b] and [a < b] as the booleans JavaScript computes. *)
Definition leb (a b : Q) : bool := Qle_bool a b.
Definition ltb (a b : Q) : bool := negb (Qle_bool b a).

(** [a / b]; no rational result when [b] is zero. *)
Definition div (a b : Q) : result Q :=
  if Qeq_bool b 0 then DivByZero else Ok (a / b).

(** [Math.min] and [Math.max]. *)
Definition min (a b : Q) : Q := if leb a b then a else b.
Definition max (a b : Q) : Q := if leb a b then b else a.

(** [Number(q.toFixed(1))]: the nearest multiple of one tenth, a tie
    going to the larger magnitude. *)
Definition toFixed1 (q : Q) : Q :=
  if ltb q 0
  then - (inject_Z (Qfloor ((- q) * 10 + (1 # 2))) / 10)
  else inject_Z (Qfloor (q * 10 + (1 # 2))) / 10.

End JS.

Infix "<=?" := JS.leb (at level 70, no associativity) : Q_scope.
Infix "<?" := JS.ltb (at level 70, no associativity) : Q_scope.

(** ** Data model *)

(** A control point [{ t, v }] of a velocity graph. *)
Record Point : Type := mkPoint { p_t : Q; p_v : Q }.

(** [BodyParams]; the two optional fields are [None] when undefined. *)
Record BodyParams : Type := mkBody {
  id : string;
  name : string;
  x0 : Q;
  v0 : Q;
  a : Q;
  color : string;
  isCustomGraph : option bool;
  graphPoints : option (list Point)
}.

(** The object [{ x, v }] returned by [calculateStateAtTime]. *)
Record State : Type := mkState { s_x : Q; s_v : Q }.

(** [TIME_STEP] and [MAX_TIME] of the constants module. *)
Definition TIME_STEP : Q := 1 # 10.
Definition MAX_TIME : Q := 20.

(** ** State Calculator *)

(** [[...pts].sort((a, b) => a.t - b.t)]: a stable sort, ascending by
    time.  [insert_by_t p l] puts [p] in front of the first element whose
    time is not smaller, so elements of equal time keep their order. *)
Fixpoint insert_by_t (p : Point) (l : list Point) : list Point :=
  match l with
  | [] => [p]
  | q :: l' =>
      if p_t p <=? p_t q then p :: q :: l' else q :: insert_by_t p l'
  end.

Definition sort_by_t (l : list Point) : list Point :=
  fold_right insert_by_t [] l.

(** The [for] loop of the custom-graph branch.  [pts] is the part of
    [sortedPoints] from index [i] on; [x] and [v] are the running
    position and velocity. *)
Fixpoint integrate (pts : list Point) (t : Q) (x v : Q) : result State :=
  match pts with
  | p1 :: rest =>
      match rest with
      | p2 :: _ =>
          if t <=? p_t p1 then Ok (mkState x v)        (* p1.t >= t: break *)
          else
            let segmentEnd := JS.min (p_t p2) t in
            let dt := segmentEnd - p_t p1 in
            if dt <=? 0 then integrate rest t x v      (* continue *)
            else
              slope <- JS.div (p_v p2 - p_v p1) (p_t p2 - p_t p1) ;;
              let vStart := p_v p1 in
              let vEnd := vStart + slope * dt in
              let dx := ((vStart + vEnd) / 2) * dt in
              let x := x + dx in
              let v := vEnd in
              if t <=? p_t p2 then Ok (mkState x v)    (* p2.t >= t: break *)
              else integrate rest t x v
      | [] => Ok (mkState x v)
      end
  | [] => Ok (mkState x v)
  end.

(** The guard [body.isCustomGraph && body.graphPoints &&
    body.graphPoints.length >= 2]: the points when it holds. *)
Definition customGraph (body : BodyParams) : option (list Point) :=
  match isCustomGraph body, graphPoints body with
  | Some true, Some pts => if Nat.leb 2 (List.length pts) then Some pts else None
  | _, _ => None
  end.

Definition calculateStateAtTime (body : BodyParams) (t : Q) : result State :=
  match customGraph body with
  | Some pts =>
      let sortedPoints := sort_by_t pts in
      let x := x0 body in
      let v := 0 in
      if t <=? 0
      then Ok (mkState (x0 body) (p_v (hd (mkPoint 0 0) sortedPoints)))
      else integrate sortedPoints t x v
  | None =>
      let x := x0 body + v0 body * t + (1 # 2) * a body * t * t in
      let v := v0 body + a body * t in
      Ok (mkState x v)
  end.

(** ** Timeline Sampler and Crossing Detector *)

(** A [SimulationStep] [{ t, bodyA: { x, v }, bodyB: { x, v } }]. *)
Record SimulationStep : Type := mkStep {
  st_t : Q;
  st_bodyA : State;
  st_bodyB : State
}.

(** The meeting point [{ t, x }]. *)
Record Meet : Type := mkMeet { m_t : Q; m_x : Q }.

(** The variables the sampling loop updates: [data], [meet], [foundMeet]. *)
Record LoopState : Type := mkLoop {
  data : list SimulationStep;
  meet : option Meet;
  foundMeet : bool
}.

(** The test [(prevXa < prevXb && xa >= xb) || (prevXa > prevXb && xa <= xb)]. *)
Definition crossed (prevXa prevXb xa xb : Q) : bool :=
  ((prevXa <? prevXb) && (xb <=? xa)) || ((prevXb <? prevXa) && (xa <=? xb)).

(** One iteration of the sampling loop, at loop variable [t]. *)
Definition loopBody (bodyA bodyB : BodyParams) (t : Q) (ls : LoopState)
  : result LoopState :=
  stateA <- calculateStateAtTime bodyA t ;;
  stateB <- calculateStateAtTime bodyB t ;;
  ls' <- (if negb (foundMeet ls) && (0 <? t) then
            prevStateA <- calculateStateAtTime bodyA (t - TIME_STEP) ;;
            prevStateB <- calculateStateAtTime bodyB (t - TIME_STEP) ;;
            let prevXa := s_x prevStateA in
            let prevXb := s_x prevStateB in
            let xa := s_x stateA in
            let xb := s_x stateB in
            if crossed prevXa prevXb xa xb
            then Ok (mkLoop (data ls) (Some (mkMeet t xa)) true)
            else Ok ls
          else Ok ls) ;;
  Ok (mkLoop
        (data ls' ++ [mkStep (JS.toFixed1 t)
                             (mkState (s_x stateA) (s_v stateA))
                             (mkState (s_x stateB) (s_v stateB))])
        (meet ls') (foundMeet ls')).

(** [for (let t = 0; t <= MAX_TIME; t += TIME_STEP) { ... }], from the
    current value of [t]; each iteration uses one unit of fuel.  Over [Q]
    the additions are exact: this is the loop without rounding, with a
    last iteration at [t = 20] that the loop over doubles ([Dbl.simLoop])
    does not have. *)
Fixpoint simLoop (fuel : nat) (bodyA bodyB : BodyParams) (t : Q)
  (ls : LoopState) : result LoopState :=
  match fuel with
  | O => OutOfFuel
  | S fuel' =>
      if t <=? MAX_TIME then
        ls' <- loopBody bodyA bodyB t ls ;;
        simLoop fuel' bodyA bodyB (t + TIME_STEP) ls'
      else Ok ls
  end.

(** The effect that pre-calculates the graph data: the values handed to
    [setSimData] and [setMeetingPoint], in exact arithmetic ([Dbl.simulate]
    is the effect over doubles). *)
Definition simulate (bodyA bodyB : BodyParams) : result LoopState :=
  simLoop 202 bodyA bodyB 0 (mkLoop [] None false).

(** ** Playback Clock *)

(** The component state [isPlaying], [currentTime], and the animation
    frame that is requested, if any.  The requested callback is the
    [animate] closure of the render in which the [isPlaying] effect ran;
    that closure is determined by the value of [currentTime] it captured,
    which is what [scheduled] holds. *)
Record Clock : Type := mkClock {
  isPlaying : bool;
  currentTime : Q;
  scheduled : option Q
}.

Definition initialClock : Clock := mkClock false 0 None.

(** The [animate] closure that captured [currentTime = captured], run on
    a frame.  In the first branch [setIsPlaying(false)] makes the effect
    cancel the request; in the second the closure requests itself again. *)
Definition animate (captured : Q) (clk : Clock) : Clock :=
  let nextTime := captured + (5 # 100) in
  if MAX_TIME <=? nextTime
  then mkClock false MAX_TIME None
  else mkClock (isPlaying clk) nextTime (Some captured).

(** A scheduler tick: the requested frame, if any, fires. *)
Definition tick (clk : Clock) : Clock :=
  match scheduled clk with
  | Some captured => animate captured clk
  | None => clk
  end.

(** The effect on [isPlaying]: request a frame for the current render's
    [animate] when playing, cancel the request otherwise. *)
Definition playingEffect (clk : Clock) : Clock :=
  if isPlaying clk
  then mkClock true (currentTime clk) (Some (currentTime clk))
  else mkClock false (currentTime clk) None.

(** The play/pause button: [setIsPlaying(!isPlaying)]. *)
Definition togglePlaying (clk : Clock) : Clock :=
  playingEffect (mkClock (negb (isPlaying clk)) (currentTime clk) (scheduled clk)).

(** [handleReset]. *)
Definition handleReset (clk : Clock) : Clock :=
  playingEffect (mkClock false 0 (scheduled clk)).

(** The [onChange] handler of the time slider, [value] being
    [parseFloat(e.target.value)]. *)
Definition handleSeek (value : Q) (clk : Clock) : Clock :=
  playingEffect (mkClock false value (scheduled clk)).

Fixpoint ticks (n : nat) (clk : Clock) : Clock :=
  match n with
  | O => clk
  | S n' => ticks n' (tick clk)
  end.

(** ** Graph Editor *)

Module GraphBuilder.

Definition width : Q := 600.
Definition height : Q := 300.
Definition padding : Q := 40.
Definition tMax : Q := 20.
Definition vMin : Q := -10.
Definition vMax : Q := 10.

(** The divisors below are nonzero constants. *)
Definition tToX (t : Q) : Q := padding + (t / tMax) * (width - 2 * padding).
Definition vToY (v : Q) : Q :=
  height - padding - ((v - vMin) / (vMax - vMin)) * (height - 2 * padding).

Definition xToT (x : Q) : Q :=
  JS.max 0 (JS.min tMax (((x - padding) / (width - 2 * padding)) * tMax)).
Definition yToV (y : Q) : Q :=
  JS.max vMin
    (JS.min vMax
       (vMin + ((height - padding - y) / (height - 2 * padding)) * (vMax - vMin))).

(** The predicate of [findIndex]:
    [Math.sqrt((x-px)**2 + (y-py)**2) < 10].  The square root of a
    rational need not be rational; as both sides are non-negative the
    test is taken on the squares. *)
Definition hit (x y : Q) (p : Point) : bool :=
  let px := tToX (p_t p) in
  let py := vToY (p_v p) in
  (x - px) * (x - px) + (y - py) * (y - py) <? 10 * 10.

(** [Array.prototype.findIndex], searching from index [i]: the index of
    the first element that satisfies [f], or [-1]. *)
Fixpoint findIndexFrom (f : Point -> bool) (l : list Point) (i : Z) : Z :=
  match l with
  | [] => (-1)%Z
  | p :: l' => if f p then i else findIndexFrom f l' (i + 1)%Z
  end.

Definition findIndex (f : Point -> bool) (l : list Point) : Z :=
  findIndexFrom f l 0%Z.

(** [l.filter((_, i) => f(i))], the first element having index [i]. *)
Fixpoint filterIndexFrom (f : Z -> bool) (l : list Point) (i : Z) : list Point :=
  match l with
  | [] => []
  | p :: l' =>
      if f i then p :: filterIndexFrom f l' (i + 1)%Z
      else filterIndexFrom f l' (i + 1)%Z
  end.

(** [handleSvgClick] on the state [points], the click being at [(x, y)]
    relative to the drawing; the result is the new value of [points]. *)
Definition handleSvgClick (points : list Point) (x y : Q) : list Point :=
  let clickedPointIndex := findIndex (hit x y) points in
  if (0 <=? clickedPointIndex)%Z then
    if (2 <? Z.of_nat (List.length points))%Z
       && negb (clickedPointIndex =? 0)%Z
       && negb (clickedPointIndex =? Z.of_nat (List.length points) - 1)%Z
    then filterIndexFrom (fun i => negb (i =? clickedPointIndex)%Z) points 0%Z
    else points
  else
    let t := JS.toFixed1 (xToT x) in
    let v := JS.toFixed1 (yToV y) in
    sort_by_t (points ++ [mkPoint t v]).

(** A pick at the graph coordinate [(t, v)]: the click on its pixel. *)
Definition pick (points : list Point) (t v : Q) : list Point :=
  handleSvgClick points (tToX t) (vToY v).

(** The Reset button. *)
Definition resetPoints : list Point := [mkPoint 0 0; mkPoint 20 0].

End GraphBuilder.

(** ** Simulation view: graph hand-over, zoom and import *)

(** Which body the graph builder edits: ['A' | 'B' | null]. *)
Inductive BodyId : Type := IdA | IdB.

(** The part of the view's state the graph hand-over touches: the two
    bodies (props of the component), [editingBody] and
    [isGraphBuilderOpen]. *)
Record Workspace : Type := mkWorkspace {
  ws_bodyA : BodyParams;
  ws_bodyB : BodyParams;
  editingBody : option BodyId;
  isGraphBuilderOpen : bool
}.

(** [openGraphBuilder]. *)
Definition openGraphBuilder (bodyId : BodyId) (ws : Workspace) : Workspace :=
  mkWorkspace (ws_bodyA ws) (ws_bodyB ws) (Some bodyId) true.

(** The [initialPoints] prop handed to the builder:
    [editingBody === 'A' ? bodyA.graphPoints || [] : bodyB.graphPoints || []]. *)
Definition initialPoints (ws : Workspace) : list Point :=
  match editingBody ws with
  | Some IdA => match graphPoints (ws_bodyA ws) with Some pts => pts | None => [] end
  | _ => match graphPoints (ws_bodyB ws) with Some pts => pts | None => [] end
  end.

(** The builder's effect on opening: the sorted initial points, or the
    two default points when there are none. *)
Definition openingPoints (initialPoints : list Point) : list Point :=
  if Nat.ltb 0 (List.length initialPoints)
  then sort_by_t initialPoints
  else [mkPoint 0 0; mkPoint 20 0].

(** [{ ...body, isCustomGraph: true, graphPoints: points }]. *)
Definition withGraph (body : BodyParams) (points : list Point) : BodyParams :=
  mkBody (id body) (name body) (x0 body) (v0 body) (a body) (color body)
         (Some true) (Some points).

(** [saveGraph]: body A when [editingBody] is ['A'], body B otherwise. *)
Definition saveGraph (points : list Point) (ws : Workspace) : Workspace :=
  match editingBody ws with
  | Some IdA =>
      mkWorkspace (withGraph (ws_bodyA ws) points) (ws_bodyB ws)
                  (editingBody ws) false
  | _ =>
      mkWorkspace (ws_bodyA ws) (withGraph (ws_bodyB ws) points)
                  (editingBody ws) false
  end.

(** The "Switch to Standard Mode" button:
    [{ ...body, isCustomGraph: false }]. *)
Definition switchToStandard (body : BodyParams) : BodyParams :=
  mkBody (id body) (name body) (x0 body) (v0 body) (a body) (color body)
         (Some false) (graphPoints body).

(** The zoom buttons: [Math.min(z * 1.2, 5)] and [Math.max(z / 1.2, 0.2)]. *)
Definition zoomIn (z : Q) : Q := JS.min (z * (12 # 10)) 5.
Definition zoomOut (z : Q) : Q := JS.max (z / (12 # 10)) (2 # 10).

(** [pixelsPerMeter], [centerScreenX] and [getPixelPos]. *)
Definition pixelsPerMeter (zoomLevel : Q) : Q := 5 * zoomLevel.
Definition centerScreenX : Q := 400.
Definition getPixelPos (zoomLevel panOffset meters : Q) : Q :=
  centerScreenX + (meters - panOffset) * pixelsPerMeter zoomLevel.

(** A [Partial<BodyParams>]: every field may be missing. *)
Record PartialBody : Type := mkPartial {
  pb_id : option string;
  pb_name : option string;
  pb_x0 : option Q;
  pb_v0 : option Q;
  pb_a : option Q;
  pb_color : option string;
  pb_isCustomGraph : option bool;
  pb_graphPoints : option (list Point)
}.

(** The object [{ bodyA?, bodyB? }] the image analysis returns. *)
Record ImportResult : Type := mkImport {
  imp_bodyA : option PartialBody;
  imp_bodyB : option PartialBody
}.

Definition orElse {A : Type} (o : option A) (d : A) : A :=
  match o with Some x => x | None => d end.

(** [{ ...prev, ...partial, isCustomGraph: false }]. *)
Definition mergeImported (prev : BodyParams) (partial : PartialBody) : BodyParams :=
  mkBody (orElse (pb_id partial) (id prev))
         (orElse (pb_name partial) (name prev))
         (orElse (pb_x0 partial) (x0 prev))
         (orElse (pb_v0 partial) (v0 prev))
         (orElse (pb_a partial) (a prev))
         (orElse (pb_color partial) (color prev))
         (Some false)
         (match pb_graphPoints partial with
          | Some pts => Some pts
          | None => graphPoints prev
          end).

(** [{ ...prev, x0: 999, v0: 0, a: 0, isCustomGraph: false }]. *)
Definition parkBody (prev : BodyParams) : BodyParams :=
  mkBody (id prev) (name prev) 999 0 0 (color prev) (Some false)
         (graphPoints prev).

(** The state updates of [handleImportImage] once the analysis has
    returned [result] ([None] for [null]). *)
Definition applyImport (result : option ImportResult) (ws : Workspace)
  : Workspace :=
  match result with
  | Some r =>
      let bodyA' :=
        match imp_bodyA r with
        | Some pa => mergeImported (ws_bodyA ws) pa
        | None => ws_bodyA ws
        end in
      let bodyB' :=
        match imp_bodyB r with
        | Some pb => mergeImported (ws_bodyB ws) pb
        | None => parkBody (ws_bodyB ws)
        end in
      mkWorkspace bodyA' bodyB' (editingBody ws) (isGraphBuilderOpen ws)
  | None => ws
  end.

(** ** Storage service *)

(** [localStorage]: the string stored under each key, if any. *)
Definition LocalStorage : Type := string -> option string.

Definition getItem (key : string) (ls : LocalStorage) : option string := ls key.

Definition setItem (key value : string) (ls : LocalStorage) : LocalStorage :=
  fun k => if String.eqb k key then Some value else ls k.

Definition removeItem (key : string) (ls : LocalStorage) : LocalStorage :=
  fun k => if String.eqb k key then None else ls k.

(** [saveToStorage], for data of a type [T].  [stringify] is
    [JSON.stringify] on [T] and [parse] is [JSON.parse] into [T], [None]
    standing for a thrown exception; [accepts ls key value] tells whether
    [localStorage.setItem] stores the value (it throws when the quota is
    exceeded).  An exception is caught and leaves the storage as it is. *)
Definition saveToStorage {T : Type} (stringify : T -> option string)
  (accepts : LocalStorage -> string -> string -> bool)
  (key : string) (data : T) (ls : LocalStorage) : LocalStorage :=
  match stringify data with
  | Some serializedData =>
      if accepts ls key serializedData
      then setItem key serializedData ls
      else ls
  | None => ls
  end.

(** [loadFromStorage]: the default value when the key is missing or its
    content does not parse. *)
Definition loadFromStorage {T : Type} (parse : string -> option T)
  (key : string) (defaultValue : T) (ls : LocalStorage) : T :=
  match getItem key ls with
  | None => defaultValue
  | Some serializedData =>
      match parse serializedData with
      | Some data => data
      | None => defaultValue
      end
  end.

(** [clearStorage]. *)
Definition clearStorage (key : string) (ls : LocalStorage) : LocalStorage :=
  removeItem key ls.

(** * Definitions used by the statements *)

(** ** Equality up to the value of the rationals, and order by time *)

(** [p] is not later than [q]. *)
Definition le_t (p q : Point) : Prop := p_t p <= p_t q.


Definition State_eq (s s' : State) : Prop :=
  s_x s == s_x s' /\ s_v s == s_v s'.

(** ** The specification's account of piecewise mode *)

(** The area the specification assigns to the segment [(p1, p2)] at query
    time [t]: [dt = min(t2, t) - t1], nothing when [dt <= 0], otherwise
    [((v1 + v_end) / 2) * dt] with [v_end = v1 + slope * dt]. *)
Definition spec_segment_area (p1 p2 : Point) (t : Q) : Q :=
  let dt := Qmin (p_t p2) t - p_t p1 in
  if Qlt_le_dec 0 dt then
    let slope := (p_v p2 - p_v p1) / (p_t p2 - p_t p1) in
    let v_end := p_v p1 + slope * dt in
    ((p_v p1 + v_end) / 2) * dt
  else 0.

(** The sum of the areas over all segments whose start time is less than
    [t]; no early exit. *)
Fixpoint spec_displacement (pts : list Point) (t : Q) : Q :=
  match pts with
  | p1 :: rest =>
      match rest with
      | p2 :: _ =>
          (if Qlt_le_dec (p_t p1) t then spec_segment_area p1 p2 t else 0)
          + spec_displacement rest t
      | [] => 0
      end
  | [] => 0
  end.

(** ** The sampling loop, iteration by iteration *)

(** The state the calculator returns; it always returns one
    ([stateAt_eq] below). *)
Definition stateAt (body : BodyParams) (t : Q) : State :=
  match calculateStateAtTime body t with
  | Ok s => s
  | _ => mkState 0 0
  end.

(** The crossing test as the loop evaluates it at loop variable [t]. *)
Definition flipAt (bodyA bodyB : BodyParams) (t : Q) : bool :=
  crossed (s_x (stateAt bodyA (t - TIME_STEP))) (s_x (stateAt bodyB (t - TIME_STEP)))
          (s_x (stateAt bodyA t)) (s_x (stateAt bodyB t)).

(** The sample pushed at loop variable [t]. *)
Definition stepAt (bodyA bodyB : BodyParams) (t : Q) : SimulationStep :=
  mkStep (JS.toFixed1 t) (stateAt bodyA t) (stateAt bodyB t).


(** The value of the loop variable at the start of iteration [k]. *)
Fixpoint timeAt (k : nat) : Q :=
  match k with
  | O => 0
  | S k' => timeAt k' + TIME_STEP
  end.

(** ** Bodies, graphs and clocks of the scenarios *)

(** [INITIAL_BODY_A] and [INITIAL_BODY_B] of the constants module. *)
Definition INITIAL_BODY_A : BodyParams :=
  mkBody "A" "Object A" 0 5 0 "#4CC9F0" None None.
Definition INITIAL_BODY_B : BodyParams :=
  mkBody "B" "Object B" 50 (-2) 0 "#F72585" None None.


(** The triangle graph [(0,0), (10,10), (20,0)] on a body that starts at
    position 0. *)
Definition triangleBody : BodyParams :=
  mkBody "A" "Object A" 0 5 0 "#4CC9F0" (Some true)
    (Some [mkPoint 0 0; mkPoint 10 10; mkPoint 20 0]).

(** A body in graph mode with a single control point. *)
Definition onePointBody : BodyParams :=
  mkBody "A" "Object A" 1 2 4 "#4CC9F0" (Some true) (Some [mkPoint 0 7]).

(** A body in graph mode without a graph. *)
Definition noGraphBody : BodyParams :=
  mkBody "A" "Object A" 1 2 4 "#4CC9F0" (Some true) None.

(** A graph with two control points at time 5. *)
Definition duplicateTimeBody : BodyParams :=
  mkBody "A" "Object A" 0 0 0 "#4CC9F0" (Some true)
    (Some [mkPoint 0 0; mkPoint 5 1; mkPoint 5 3; mkPoint 10 0]).

(** A clock that was started at cursor 0. *)
Definition playingClock : Clock := togglePlaying initialClock.

(** ** The clock: clamping and reachable states *)

(** [clamp(t, lo, hi)] of the specification. *)
Definition clamp (t lo hi : Q) : Q := JS.max lo (JS.min hi t).

(** The states the clock can be in: from the initial state by the button,
    the reset, a seek to a slider value, and frames. *)
Inductive reachable : Clock -> Prop :=
| reach_initial : reachable initialClock
| reach_toggle clk : reachable clk -> reachable (togglePlaying clk)
| reach_reset clk : reachable clk -> reachable (handleReset clk)
| reach_seek clk value :
    reachable clk -> 0 <= value -> value <= MAX_TIME ->
    reachable (handleSeek value clk)
| reach_tick clk : reachable clk -> reachable (tick clk).


(** ** Definitions for the further properties *)

(** A graph whose first control point is at time 5. *)
Definition lateStartBody : BodyParams :=
  mkBody "A" "Object A" 7 0 0 "#4CC9F0" (Some true)
    (Some [mkPoint 5 4; mkPoint 10 4]).

(** A point inside the editor's domain. *)
Definition inDomain (p : Point) : Prop :=
  (0 <= p_t p /\ p_t p <= GraphBuilder.tMax) /\
  (GraphBuilder.vMin <= p_v p /\ p_v p <= GraphBuilder.vMax).

(** What the editor keeps true of its points: sorted by time, at least
    two, the first at time 0, the last at time [tMax], all inside the
    domain. *)
Definition editorInv (pts : list Point) : Prop :=
  StronglySorted le_t pts /\
  (2 <= List.length pts)%nat /\
  p_t (hd (mkPoint 0 0) pts) == 0 /\
  p_t (last pts (mkPoint 0 0)) == GraphBuilder.tMax /\
  Forall inDomain pts.

(** The condition under which the crash marker is drawn:
    [meetingPoint && currentTime >= meetingPoint.t]. *)
Definition crashMarkerVisible (meetingPoint : option Meet) (currentTime : Q)
  : bool :=
  match meetingPoint with
  | Some m => m_t m <=? currentTime
  | None => false
  end.

(** A graph of constant velocity 3 over ten seconds. *)
Definition steadyBody : BodyParams :=
  mkBody "A" "Object A" 2 0 0 "#4CC9F0" (Some true)
    (Some [mkPoint 0 3; mkPoint 10 3]).

(** A codec for booleans, an empty storage and a storage without quota,
    to run the storage service on. *)
Definition stringifyBool (b : bool) : option string :=
  Some (if b then "true" else "false")%string.

Definition parseBool (s : string) : option bool :=
  if String.eqb s "true" then Some true
  else if String.eqb s "false" then Some false
  else None.

Definition emptyStorage : LocalStorage := fun _ => None.

Definition unlimited (ls : LocalStorage) (key value : string) : bool := true.

(** * The state calculator and the sampling loop in double precision *)

(** The sampling loop adds [TIME_STEP] to its variable in double
    precision and recomputes the previous state at [t - TIME_STEP]: how
    many samples there are and whether the crossing test succeeds depend
    on the rounding of these operations.  The module [Dbl] embeds
    [calculateStateAtTime] and the loop a second time over IEEE-754
    binary64 numbers (the primitive floats), operation by operation and
    in the order in which JavaScript evaluates them. *)

Module Dbl.

Local Open Scope float_scope.

(** [Math.min(a, b)]: NaN when an argument is NaN, and [-0] below [+0]. *)
Definition min (a b : float) : float :=
  if is_nan a || is_nan b then nan
  else if a <? b then a
  else if b <? a then b
  else if get_sign a then a else b.

(** The rational a finite double stands for. *)
Definition exact (f : float) : Q :=
  match Prim2SF f with
  | S754_finite s m e =>
      let q := (inject_Z (Z.pos m) * 2 ^ e)%Q in
      if s then (- q)%Q else q
  | _ => 0%Q
  end.

(** [Number(f.toFixed(1))] for a finite [f] of magnitude below [2^53 / 10]
    (the loop variable stays below 21): [toFixed] takes the integer [n]
    for which [n / 10] is nearest to the exact magnitude of [f], the
    larger one at a tie, and writes [n / 10] in decimal after the sign;
    [Number] reads the double nearest to it. *)
Definition toFixed1 (f : float) : float :=
  let n := Qfloor (Qabs (exact f) * 10 + (1 # 2))%Q in
  let r := of_uint63 (Uint63.of_Z n) / 10 in
  if f <? 0 then - r else r.

(** [{ t, v }], [BodyParams] and [{ x, v }] with their numbers as doubles. *)
Record Point : Type := mkPoint { p_t : float; p_v : float }.

Record BodyParams : Type := mkBody {
  id : string;
  name : string;
  x0 : float;
  v0 : float;
  a : float;
  color : string;
  isCustomGraph : option bool;
  graphPoints : option (list Point)
}.

Record State : Type := mkState { s_x : float; s_v : float }.

Definition TIME_STEP : float := 0.1.
Definition MAX_TIME : float := 20.

(** [[...pts].sort((a, b) => a.t - b.t)]: a stable sort; [p] goes after
    [q] exactly when [p.t - q.t > 0].  (With a time that is NaN the
    comparator is not an order and the result is left to the engine.) *)
Fixpoint insert_by_t (p : Point) (l : list Point) : list Point :=
  match l with
  | [] => [p]
  | q :: l' =>
      if 0 <? p_t p - p_t q then q :: insert_by_t p l' else p :: q :: l'
  end.

Definition sort_by_t (l : list Point) : list Point :=
  fold_right insert_by_t [] l.

(** The loop over the segments, from the segment that starts at the head
    of [pts], with the current values of [x] and [v]. *)
Fixpoint integrate (pts : list Point) (t : float) (x v : float) : State :=
  match pts with
  | p1 :: rest =>
      match rest with
      | p2 :: _ =>
          if t <=? p_t p1 then mkState x v
          else
            let segmentEnd := min (p_t p2) t in
            let dt := segmentEnd - p_t p1 in
            if dt <=? 0 then integrate rest t x v
            else
              let slope := (p_v p2 - p_v p1) / (p_t p2 - p_t p1) in
              let vStart := p_v p1 in
              let vEnd := vStart + slope * dt in
              let dx := ((vStart + vEnd) / 2) * dt in
              let x := x + dx in
              let v := vEnd in
              if t <=? p_t p2 then mkState x v
              else integrate rest t x v
      | [] => mkState x v
      end
  | [] => mkState x v
  end.

(** [body.isCustomGraph && body.graphPoints && body.graphPoints.length >= 2]. *)
Definition customGraph (body : BodyParams) : option (list Point) :=
  match isCustomGraph body, graphPoints body with
  | Some true, Some pts =>
      if Nat.leb 2 (List.length pts) then Some pts else None
  | _, _ => None
  end.

Definition calculateStateAtTime (body : BodyParams) (t : float) : State :=
  match customGraph body with
  | Some pts =>
      let sortedPoints := sort_by_t pts in
      let x := x0 body in
      let v := 0 in
      if t <=? 0
      then mkState (x0 body) (p_v (hd (mkPoint 0 0) sortedPoints))
      else integrate sortedPoints t x v
  | None =>
      let x := x0 body + v0 body * t + 0.5 * a body * t * t in
      let v := v0 body + a body * t in
      mkState x v
  end.

Record SimulationStep : Type := mkStep {
  st_t : float;
  st_bodyA : State;
  st_bodyB : State
}.

Record Meet : Type := mkMeet { m_t : float; m_x : float }.

Record LoopState : Type := mkLoop {
  data : list SimulationStep;
  meet : option Meet;
  foundMeet : bool
}.

(** The test [(prevXa < prevXb && xa >= xb) || (prevXa > prevXb && xa <= xb)]. *)
Definition crossed (prevXa prevXb xa xb : float) : bool :=
  ((prevXa <? prevXb) && (xb <=? xa)) || ((prevXb <? prevXa) && (xa <=? xb)).

(** One iteration of the sampling loop, at loop variable [t]. *)
Definition loopBody (bodyA bodyB : BodyParams) (t : float) (ls : LoopState)
  : LoopState :=
  let stateA := calculateStateAtTime bodyA t in
  let stateB := calculateStateAtTime bodyB t in
  let ls' :=
    if negb (foundMeet ls) && (0 <? t) then
      let prevStateA := calculateStateAtTime bodyA (t - TIME_STEP) in
      let prevStateB := calculateStateAtTime bodyB (t - TIME_STEP) in
      let prevXa := s_x prevStateA in
      let prevXb := s_x prevStateB in
      let xa := s_x stateA in
      let xb := s_x stateB in
      if crossed prevXa prevXb xa xb
      then mkLoop (data ls) (Some (mkMeet t xa)) true
      else ls
    else ls in
  mkLoop
    (data ls' ++ [mkStep (toFixed1 t)
                         (mkState (s_x stateA) (s_v stateA))
                         (mkState (s_x stateB) (s_v stateB))])
    (meet ls') (foundMeet ls').

(** [for (let t = 0; t <= MAX_TIME; t += TIME_STEP) { ... }], from the
    current value of [t]; each iteration uses one unit of fuel. *)
Fixpoint simLoop (fuel : nat) (bodyA bodyB : BodyParams) (t : float)
  (ls : LoopState) : result LoopState :=
  match fuel with
  | O => OutOfFuel
  | S fuel' =>
      if t <=? MAX_TIME then
        simLoop fuel' bodyA bodyB (t + TIME_STEP) (loopBody bodyA bodyB t ls)
      else Ok ls
  end.

(** The effect that pre-calculates the graph data: the values handed to
    [setSimData] and [setMeetingPoint]. *)
Definition simulate (bodyA bodyB : BodyParams) : result LoopState :=
  simLoop 202 bodyA bodyB 0 (mkLoop [] None false).

(** ** The loop, iteration by iteration *)

(** The value of the loop variable at the start of iteration [k]. *)
Fixpoint timeAt (k : nat) : float :=
  match k with
  | O => 0
  | S k' => timeAt k' + TIME_STEP
  end.

(** The values the loop variable takes from [t] on, while the guard
    [t <= MAX_TIME] holds. *)
Fixpoint timesFrom (fuel : nat) (t : float) : option (list float) :=
  match fuel with
  | O => None
  | S fuel' =>
      if t <=? MAX_TIME
      then option_map (cons t) (timesFrom fuel' (t + TIME_STEP))
      else Some []
  end.

(** The sample pushed at loop variable [t]. *)
Definition stepAt (bodyA bodyB : BodyParams) (t : float) : SimulationStep :=
  mkStep (toFixed1 t) (calculateStateAtTime bodyA t) (calculateStateAtTime bodyB t).

(** The crossing test as the loop evaluates it at loop variable [t]: the
    previous state is computed anew, at [t - TIME_STEP]. *)
Definition flipAt (bodyA bodyB : BodyParams) (t : float) : bool :=
  crossed (s_x (calculateStateAtTime bodyA (t - TIME_STEP)))
          (s_x (calculateStateAtTime bodyB (t - TIME_STEP)))
          (s_x (calculateStateAtTime bodyA t))
          (s_x (calculateStateAtTime bodyB t)).

(** The crossing test on two samples of the timeline. *)
Definition flips (prev cur : SimulationStep) : bool :=
  crossed (s_x (st_bodyA prev)) (s_x (st_bodyB prev))
          (s_x (st_bodyA cur)) (s_x (st_bodyB cur)).

(** The condition under which the crash marker is drawn:
    [meetingPoint && currentTime >= meetingPoint.t]. *)
Definition crashMarkerVisible (meetingPoint : option Meet) (currentTime : float)
  : bool :=
  match meetingPoint with
  | Some m => m_t m <=? currentTime
  | None => false
  end.

(** The double nearest to [k / 10]. *)
Definition label (k : nat) : float :=
  of_uint63 (Uint63.of_Z (Z.of_nat k)) / 10.

(** ** Bodies of the scenarios *)

(** [INITIAL_BODY_A] and [INITIAL_BODY_B] of the constants module. *)
Definition INITIAL_BODY_A : BodyParams :=
  mkBody "A" "Object A" 0 5 0 "#4CC9F0" None None.
Definition INITIAL_BODY_B : BodyParams :=
  mkBody "B" "Object B" 50 (-2) 0 "#F72585" None None.

(** Body B of the scenario without a crossing. *)
Definition parallelBodyB : BodyParams :=
  mkBody "B" "Object B" 100 10 0 "#F72585" None None.

(** Two bodies that are level at [t = 0.2]: A starts at 0.7 and moves at
    1, B starts at 1 and moves at -0.5. *)
Definition levelBodyA : BodyParams :=
  mkBody "A" "Object A" 0.7 1 0 "#4CC9F0" None None.
Definition levelBodyB : BodyParams :=
  mkBody "B" "Object B" 1 (-0.5) 0 "#F72585" None None.

(** Two bodies that are level at the horizon: A moves at 1 from 0, B
    rests at 20. *)
Definition horizonBodyA : BodyParams :=
  mkBody "A" "Object A" 0 1 0 "#4CC9F0" None None.
Definition horizonBodyB : BodyParams :=
  mkBody "B" "Object B" 20 0 0 "#F72585" None None.

(** Two bodies of which A stays behind B at every sample: A starts at
    -0.02 with velocity 1.2 and acceleration 1, B at 0 with velocity 1
    and acceleration 2. *)
Definition trailingBodyA : BodyParams :=
  mkBody "A" "Object A" (-0.02) 1.2 1 "#4CC9F0" None None.
Definition leadingBodyB : BodyParams :=
  mkBody "B" "Object B" 0 1 2 "#F72585" None None.

End Dbl.

(** * Properties *)

(** ** Comparisons *)

Lemma leb_true (a b : Q) : (a <=? b) = true <-> a <= b.
Proof. unfold JS.leb. apply Qle_bool_iff. Qed.

Lemma leb_false (a b : Q) : (a <=? b) = false <-> b < a.
Proof.
  unfold JS.leb. split; intro H.
  - apply Qnot_le_lt. intro L. apply Qle_bool_iff in L. congruence.
  - destruct (Qle_bool a b) eqn:E; [|reflexivity].
    apply Qle_bool_iff in E. lra.
Qed.

Lemma ltb_true (a b : Q) : (a <? b) = true <-> a < b.
Proof.
  unfold JS.ltb. rewrite negb_true_iff. apply (leb_false b a).
Qed.

Lemma ltb_false (a b : Q) : (a <? b) = false <-> b <= a.
Proof.
  unfold JS.ltb. rewrite negb_false_iff. apply (leb_true b a).
Qed.

(** Turns every boolean comparison among the hypotheses into the order
    relation it decides. *)
Ltac order_hyps :=
  repeat match goal with
  | H : (_ <=? _) = true |- _ => apply leb_true in H
  | H : (_ <=? _) = false |- _ => apply leb_false in H
  | H : (_ <? _) = true |- _ => apply ltb_true in H
  | H : (_ <? _) = false |- _ => apply ltb_false in H
  end.

Lemma min_le_l (a b : Q) : JS.min a b <= a.
Proof. unfold JS.min. destruct (a <=? b) eqn:E; order_hyps; lra. Qed.

Lemma min_le_r (a b : Q) : JS.min a b <= b.
Proof. unfold JS.min. destruct (a <=? b) eqn:E; order_hyps; lra. Qed.

Lemma min_cases (a b : Q) :
  (a <= b /\ JS.min a b = a) \/ (b < a /\ JS.min a b = b).
Proof. unfold JS.min. destruct (a <=? b) eqn:E; order_hyps; auto. Qed.


Lemma Ok_inj {A : Type} (a b : A) : Ok a = Ok b -> a = b.
Proof. now intros [= ->]. Qed.

Lemma div_ok (a b : Q) : ~ b == 0 -> JS.div a b = Ok (a / b).
Proof.
  intro H. unfold JS.div. destruct (Qeq_bool b 0) eqn:E; [|reflexivity].
  apply Qeq_bool_iff in E. contradiction.
Qed.

(** ** The state calculator never divides by zero *)

(** One turn of the loop on a segment [(p1, p2)]. *)
Lemma integrate_step (p1 p2 : Point) (rest : list Point) (t x v : Q) :
  integrate (p1 :: p2 :: rest) t x v =
  if t <=? p_t p1 then Ok (mkState x v)
  else
    let dt := JS.min (p_t p2) t - p_t p1 in
    if dt <=? 0 then integrate (p2 :: rest) t x v
    else
      slope <- JS.div (p_v p2 - p_v p1) (p_t p2 - p_t p1) ;;
      let vEnd := p_v p1 + slope * dt in
      let dx := ((p_v p1 + vEnd) / 2) * dt in
      if t <=? p_t p2 then Ok (mkState (x + dx) vEnd)
      else integrate (p2 :: rest) t (x + dx) vEnd.
Proof. reflexivity. Qed.

Lemma integrate_degenerate (p1 p2 : Point) (rest : list Point) (t x v : Q) :
  p_t p2 == p_t p1 ->
  integrate (p1 :: p2 :: rest) t x v =
  if t <=? p_t p1 then Ok (mkState x v) else integrate (p2 :: rest) t x v.
Proof.
  intro E. rewrite integrate_step. cbv zeta.
  destruct (t <=? p_t p1) eqn:B; [reflexivity|].
  destruct (JS.min (p_t p2) t - p_t p1 <=? 0) eqn:D; [reflexivity|].
  exfalso. order_hyps. pose proof (min_le_l (p_t p2) t). lra.
Qed.

Lemma integrate_ok (pts : list Point) (t x v : Q) :
  exists s, integrate pts t x v = Ok s.
Proof.
  revert x v. induction pts as [|p1 rest IH]; intros x v; [now eexists|].
  destruct rest as [|p2 rest']; [now eexists|].
  rewrite integrate_step. cbv zeta.
  destruct (t <=? p_t p1) eqn:B; [now eexists|].
  destruct (JS.min (p_t p2) t - p_t p1 <=? 0) eqn:D; [apply IH|].
  rewrite div_ok.
  - cbn [bind]. destruct (t <=? p_t p2); [now eexists | apply IH].
  - order_hyps. pose proof (min_le_l (p_t p2) t). lra.
Qed.

Lemma calculateStateAtTime_ok (body : BodyParams) (t : Q) :
  exists s, calculateStateAtTime body t = Ok s.
Proof.
  unfold calculateStateAtTime. destruct (customGraph body) as [pts|].
  - destruct (t <=? 0); [now eexists | apply integrate_ok].
  - now eexists.
Qed.

(** ** Sorting by time *)

Lemma insert_by_t_perm (p : Point) (l : list Point) :
  Permutation (p :: l) (insert_by_t p l).
Proof.
  induction l as [|q l IH]; cbn [insert_by_t]; [reflexivity|].
  destruct (p_t p <=? p_t q); [reflexivity|].
  rewrite perm_swap. now constructor.
Qed.

Lemma sort_by_t_perm (l : list Point) : Permutation l (sort_by_t l).
Proof.
  induction l as [|p l IH]; cbn; [constructor|].
  rewrite <- insert_by_t_perm. now constructor.
Qed.

Lemma insert_by_t_sorted (p : Point) (l : list Point) :
  StronglySorted le_t l -> StronglySorted le_t (insert_by_t p l).
Proof.
  induction 1 as [|q l S IH F]; cbn [insert_by_t].
  - repeat constructor.
  - destruct (p_t p <=? p_t q) eqn:E; order_hyps.
    + constructor; [now constructor|].
      constructor; [exact E|].
      eapply Forall_impl; [|exact F].
      unfold le_t; intros r Hr; lra.
    + constructor; [exact IH|].
      eapply Permutation_Forall; [apply insert_by_t_perm|].
      constructor; [unfold le_t; lra | exact F].
Qed.

Lemma sort_by_t_sorted (l : list Point) : StronglySorted le_t (sort_by_t l).
Proof.
  induction l as [|p l IH]; cbn; [constructor|].
  now apply insert_by_t_sorted.
Qed.

Lemma sort_by_t_length (l : list Point) :
  List.length (sort_by_t l) = List.length l.
Proof. symmetry. apply Permutation_length, sort_by_t_perm. Qed.

(** The head of a sorted list is an earliest point of the list. *)
Lemma sorted_head_earliest (p : Point) (l l0 : list Point) :
  StronglySorted le_t (p :: l) -> Permutation l0 (p :: l) ->
  forall q, In q l0 -> p_t p <= p_t q.
Proof.
  intros S P q Hq. apply (Permutation_in _ P) in Hq.
  inversion S as [|? ? _ F]; subst.
  destruct Hq as [<-|Hq]; [lra|].
  rewrite Forall_forall in F. now apply F.
Qed.

(** ** Piecewise mode: the position is the sum of the trapezoid areas *)

Lemma spec_displacement_step (p1 p2 : Point) (rest : list Point) (t : Q) :
  spec_displacement (p1 :: p2 :: rest) t =
  (if Qlt_le_dec (p_t p1) t then spec_segment_area p1 p2 t else 0)
  + spec_displacement (p2 :: rest) t.
Proof. reflexivity. Qed.

Lemma min_Qmin (a b : Q) : JS.min a b == Qmin a b.
Proof.
  destruct (min_cases a b) as [[L ->]|[L ->]].
  - symmetry. now apply Q.min_l.
  - symmetry. apply Q.min_r. lra.
Qed.

(** Once the first point is not before [t], no segment starts before [t]. *)
Lemma spec_displacement_future (pts : list Point) (t : Q) :
  StronglySorted le_t pts ->
  (forall p, In p pts -> t <= p_t p) ->
  spec_displacement pts t == 0.
Proof.
  induction pts as [|p1 rest IH]; intros S H; [reflexivity|].
  destruct rest as [|p2 rest']; [reflexivity|].
  rewrite spec_displacement_step.
  inversion S as [|? ? S' F]; subst.
  rewrite IH; [|exact S'|intros p Hp; apply H; now right].
  destruct (Qlt_le_dec (p_t p1) t) as [L|L]; [|lra].
  specialize (H p1 (or_introl eq_refl)). lra.
Qed.

Lemma sorted_from (p : Point) (l : list Point) (t : Q) :
  StronglySorted le_t (p :: l) -> t <= p_t p ->
  forall q, In q (p :: l) -> t <= p_t q.
Proof.
  intros S L q Hq.
  pose proof (sorted_head_earliest p l (p :: l) S (Permutation_refl _) q Hq).
  lra.
Qed.

Lemma integrate_spec (pts : list Point) (t : Q) :
  StronglySorted le_t pts ->
  forall x v, exists s,
    integrate pts t x v = Ok s /\ s_x s == x + spec_displacement pts t.
Proof.
  induction pts as [|p1 rest IH]; intros S x v.
  { eexists; split; [reflexivity|]. cbn. lra. }
  destruct rest as [|p2 rest'].
  { eexists; split; [reflexivity|]. cbn. lra. }
  inversion S as [|? ? S' F]; subst.
  rewrite integrate_step, spec_displacement_step. cbv zeta.
  destruct (t <=? p_t p1) eqn:B; order_hyps.
  - (* the segment lies in the future *)
    eexists; split; [reflexivity|]. cbn [s_x].
    rewrite (spec_displacement_future (p2 :: rest') t S').
    + destruct (Qlt_le_dec (p_t p1) t); lra.
    + intros q Hq. rewrite Forall_forall in F. specialize (F q Hq).
      unfold le_t in F. lra.
  - destruct (Qlt_le_dec (p_t p1) t) as [_|L]; [|lra].
    unfold spec_segment_area.
    pose proof (min_Qmin (p_t p2) t) as M.
    destruct (JS.min (p_t p2) t - p_t p1 <=? 0) eqn:D; order_hyps.
    + (* a segment of no duration *)
      destruct (IH S' x v) as [s [E Hs]]. exists s. split; [exact E|].
      rewrite Hs. destruct (Qlt_le_dec 0 (Qmin (p_t p2) t - p_t p1)); lra.
    + destruct (Qlt_le_dec 0 (Qmin (p_t p2) t - p_t p1)) as [_|L']; [|lra].
      rewrite div_ok
        by (pose proof (min_le_l (p_t p2) t); lra).
      cbn [bind].
      destruct (t <=? p_t p2) eqn:B2; order_hyps.
      * eexists; split; [reflexivity|]. cbn [s_x].
        rewrite (spec_displacement_future (p2 :: rest') t S')
          by (now apply sorted_from).
        rewrite M. lra.
      * edestruct (IH S') as [s [E Hs]]. exists s. split; [exact E|].
        rewrite Hs, M. lra.
Qed.

(** ** The state calculator respects equality of rationals *)

#[local] Instance leb_proper : Proper (Qeq ==> Qeq ==> eq) JS.leb.
Proof. intros a a' Ha b b' Hb. unfold JS.leb. now rewrite Ha, Hb. Qed.

#[local] Instance ltb_proper : Proper (Qeq ==> Qeq ==> eq) JS.ltb.
Proof. intros a a' Ha b b' Hb. unfold JS.ltb. now rewrite Ha, Hb. Qed.

#[local] Instance min_proper : Proper (Qeq ==> Qeq ==> Qeq) JS.min.
Proof.
  intros a a' Ha b b' Hb. unfold JS.min. rewrite Ha, Hb.
  now destruct (a' <=? b').
Qed.

#[local] Instance crossed_proper :
  Proper (Qeq ==> Qeq ==> Qeq ==> Qeq ==> eq) crossed.
Proof.
  intros a a' Ha b b' Hb c c' Hc d d' Hd. unfold crossed.
  now rewrite Ha, Hb, Hc, Hd.
Qed.

Lemma integrate_proper (pts : list Point) (t t' : Q) :
  t == t' ->
  forall x x' v v' s s',
    x == x' -> v == v' ->
    integrate pts t x v = Ok s -> integrate pts t' x' v' = Ok s' ->
    State_eq s s'.
Proof.
  intro Ht. induction pts as [|p1 rest IH]; intros x x' v v' s s' Hx Hv E E'.
  { cbn in E, E'. injection E as <-. injection E' as <-. now split. }
  destruct rest as [|p2 rest'].
  { cbn in E, E'. injection E as <-. injection E' as <-. now split. }
  rewrite integrate_step in E, E'. cbv zeta in E, E'.
  assert (B1 : (t' <=? p_t p1) = (t <=? p_t p1)) by now rewrite Ht.
  assert (M : JS.min (p_t p2) t' == JS.min (p_t p2) t) by now rewrite Ht.
  assert (B2 : (JS.min (p_t p2) t' - p_t p1 <=? 0)
               = (JS.min (p_t p2) t - p_t p1 <=? 0)) by now rewrite M.
  assert (B3 : (t' <=? p_t p2) = (t <=? p_t p2)) by now rewrite Ht.
  rewrite B1, B2, B3 in E'. clear B1 B2 B3.
  destruct (t <=? p_t p1).
  { injection E as <-. injection E' as <-. now split. }
  destruct (JS.min (p_t p2) t - p_t p1 <=? 0) eqn:D.
  { eapply IH; [| |exact E|exact E']; assumption. }
  order_hyps.
  assert (N : ~ p_t p2 - p_t p1 == 0)
    by (pose proof (min_le_l (p_t p2) t); lra).
  rewrite (div_ok _ _ N) in E, E'. cbn [bind] in E, E'.
  destruct (t <=? p_t p2).
  - injection E as <-. injection E' as <-.
    split; cbn [s_x s_v]; rewrite ?Hx, ?M; reflexivity.
  - eapply IH; [| |exact E|exact E']; rewrite ?Hx, ?M; reflexivity.
Qed.

Lemma calculateStateAtTime_proper (body : BodyParams) (t t' : Q) (s s' : State) :
  t == t' ->
  calculateStateAtTime body t = Ok s -> calculateStateAtTime body t' = Ok s' ->
  State_eq s s'.
Proof.
  intros Ht. unfold calculateStateAtTime.
  destruct (customGraph body) as [pts|].
  - assert (B : (t' <=? 0) = (t <=? 0)) by now rewrite Ht.
    rewrite B. destruct (t <=? 0).
    + intros E E'. injection E as <-. injection E' as <-. now split.
    + apply integrate_proper; [exact Ht|reflexivity|reflexivity].
  - intros E E'. injection E as <-. injection E' as <-.
    split; cbn [s_x s_v]; now rewrite Ht.
Qed.

(** ** The sampling loop *)

Lemma stateAt_eq (body : BodyParams) (t : Q) :
  calculateStateAtTime body t = Ok (stateAt body t).
Proof.
  unfold stateAt. destruct (calculateStateAtTime_ok body t) as [s ->].
  reflexivity.
Qed.

Lemma stateAt_proper (body : BodyParams) (t t' : Q) :
  t == t' -> State_eq (stateAt body t) (stateAt body t').
Proof.
  intro Ht. eapply calculateStateAtTime_proper; [exact Ht| |]; apply stateAt_eq.
Qed.









(** [find] returns the first element that satisfies the predicate. *)
Lemma find_first {A : Type} (f : A -> bool) (l : list A) (x : A) :
  find f l = Some x ->
  exists i, nth_error l i = Some x /\ f x = true /\
            forall j y, (j < i)%nat -> nth_error l j = Some y -> f y = false.
Proof.
  induction l as [|y l IH]; cbn [find]; [discriminate|].
  destruct (f y) eqn:E.
  - intros [= ->]. exists 0%nat. repeat split; [exact E|]. intros; lia.
  - intro H. destruct (IH H) as [i [N [T L]]]. exists (S i).
    repeat split; [exact N|exact T|].
    intros [|j] z Hj; cbn [nth_error].
    + now intros [= <-].
    + apply L. lia.
Qed.

Lemma nth_error_map_seq {A : Type} (f : nat -> A) (n : nat) :
  forall start k x,
    nth_error (map f (seq start n)) k = Some x <->
    (k < n)%nat /\ x = f (start + k)%nat.
Proof.
  induction n as [|n IH]; intros start k x; cbn [seq map].
  - split; [now destruct k | lia].
  - destruct k as [|k]; cbn [nth_error].
    + rewrite Nat.add_0_r. split.
      * intros [= <-]. split; [lia|reflexivity].
      * now intros [_ ->].
    + rewrite IH, Nat.add_succ_comm. split; intros [L E]; (split; [lia|exact E]).
Qed.

Lemma Qfloor_unique (q : Q) (z : Z) :
  inject_Z z <= q -> q < inject_Z (z + 1) -> Qfloor q = z.
Proof.
  intros L U.
  assert (z <= Qfloor q)%Z.
  { rewrite <- (Qfloor_Z z). now apply Qfloor_resp_le. }
  assert (Qfloor q < z + 1)%Z.
  { rewrite Zlt_Qlt. eapply Qle_lt_trans; [apply Qfloor_le|exact U]. }
  lia.
Qed.



(** ** The crossing scenario of the specification *)




(** ** State Calculator: the claims *)

Lemma customGraph_some (body : BodyParams) (pts : list Point) :
  isCustomGraph body = Some true -> graphPoints body = Some pts ->
  (2 <= List.length pts)%nat -> customGraph body = Some pts.
Proof.
  intros F G L. unfold customGraph. rewrite F, G.
  destruct (Nat.leb_spec 2 (List.length pts)); [reflexivity|lia].
Qed.

(** C1. For a body in piecewise-velocity mode (flag set, at least two
    control points) the points are sorted ascending by time before use.
    At [t <= 0] the result is position [x0] and the velocity of the
    earliest control point.  At [t > 0] the position is [x0] plus the sum,
    over the segments of the sorted graph that start before [t], of the
    trapezoid area [((v_i + v_end) / 2) * dt], [dt = min(t_{i+1}, t) - t_i],
    [v_end = v_i + slope * dt], a segment with [dt <= 0] adding nothing.
    For the points [(0,0), (10,10), (20,0)] and [x0 = 0] the position is
    50 at [t = 10] and 100 at [t = 20]. *)
Theorem piecewise_position (body : BodyParams) (pts : list Point) (t : Q) :
  isCustomGraph body = Some true ->
  graphPoints body = Some pts ->
  (2 <= List.length pts)%nat ->
  let sorted := sort_by_t pts in
  (StronglySorted le_t sorted /\ Permutation pts sorted) /\
  (t <= 0 ->
   exists first rest,
     sorted = first :: rest /\
     (forall p, In p pts -> p_t first <= p_t p) /\
     calculateStateAtTime body t = Ok (mkState (x0 body) (p_v first))) /\
  (0 < t ->
   exists s,
     calculateStateAtTime body t = Ok s /\
     s_x s == x0 body + spec_displacement sorted t) /\
  (pts = [mkPoint 0 0; mkPoint 10 10; mkPoint 20 0] -> x0 body == 0 ->
   (t == 10 -> exists s, calculateStateAtTime body t = Ok s /\ s_x s == 50) /\
   (t == 20 -> exists s, calculateStateAtTime body t = Ok s /\ s_x s == 100)).
Proof.
  intros F G L sorted.
  pose proof (customGraph_some body pts F G L) as C.
  pose proof (sort_by_t_sorted pts) as S.
  pose proof (sort_by_t_perm pts) as P.
  fold sorted in S, P.
  split; [now split|]. split; [|split].
  - intro Ht. apply leb_true in Ht.
    unfold calculateStateAtTime. rewrite C. cbv zeta. fold sorted. rewrite Ht.
    destruct sorted as [|first rest] eqn:E.
    + apply Permutation_length in P. cbn in P. lia.
    + exists first, rest. split; [reflexivity|]. split; [|reflexivity].
      now apply (sorted_head_earliest first rest pts).
  - intro Ht. assert (B : (t <=? 0) = false) by (apply leb_false; exact Ht).
    unfold calculateStateAtTime. rewrite C. cbv zeta. fold sorted. rewrite B.
    apply integrate_spec. exact S.
  - intros -> X0.
    assert (A : forall u s', t == u -> 0 < u ->
              integrate sorted u 0 0 = Ok s' ->
              exists s, calculateStateAtTime body t = Ok s /\ s_x s == s_x s').
    { intros u s' Hu Pu E'.
      assert (B : (t <=? 0) = false) by (apply leb_false; lra).
      unfold calculateStateAtTime. rewrite C. cbv zeta. fold sorted. rewrite B.
      destruct (integrate_ok sorted t (x0 body) 0) as [s E].
      exists s. split; [exact E|].
      eapply integrate_proper; [exact Hu|exact X0|reflexivity|exact E|exact E']. }
    split; intro Ht.
    + edestruct (A 10) as (s & E & X);
        [exact Ht|lra|vm_compute; reflexivity|].
      exists s. split; [exact E|]. rewrite X. reflexivity.
    + edestruct (A 20) as (s & E & X);
        [exact Ht|lra|vm_compute; reflexivity|].
      exists s. split; [exact E|]. rewrite X. reflexivity.
Qed.

Lemma piecewise_position_witness :
  (exists s, calculateStateAtTime triangleBody 10 = Ok s /\ s_x s == 50) /\
  (exists s, calculateStateAtTime triangleBody 20 = Ok s /\ s_x s == 100) /\
  calculateStateAtTime triangleBody 0 = Ok (mkState 0 0).
Proof.
  assert (L : (2 <= 3)%nat) by lia.
  split; [|split].
  - destruct (piecewise_position triangleBody _ 10 eq_refl eq_refl L)
      as (_ & _ & _ & E).
    apply (E eq_refl); reflexivity.
  - destruct (piecewise_position triangleBody _ 20 eq_refl eq_refl L)
      as (_ & _ & _ & E).
    apply (E eq_refl); reflexivity.
  - destruct (piecewise_position triangleBody _ 0 eq_refl eq_refl L)
      as (_ & E & _).
    assert (Z : 0 <= 0) by lra.
    destruct (E Z) as (first & rest & H & _ & R).
    injection H as <- _. exact R.
Defined.

(** C2. A body in constant-acceleration mode (the graph flag is not set)
    has, at every [t], velocity [v0 + a*t] and position
    [x0 + v0*t + 0.5*a*t^2]. *)
Theorem constant_acceleration (body : BodyParams) (t : Q) :
  isCustomGraph body <> Some true ->
  exists s,
    calculateStateAtTime body t = Ok s /\
    s_v s == v0 body + a body * t /\
    s_x s == x0 body + v0 body * t + (1 # 2) * a body * t ^ 2.
Proof.
  intro M. eexists. split.
  - unfold calculateStateAtTime, customGraph.
    destruct (isCustomGraph body) as [[|]|]; [contradiction|reflexivity..].
  - cbn [s_x s_v]. split; [reflexivity|]. change (t ^ 2) with (t * t). ring.
Qed.

Lemma constant_acceleration_witness :
  exists s,
    calculateStateAtTime INITIAL_BODY_B 3 = Ok s /\
    s_v s == -2 /\ s_x s == 44.
Proof.
  assert (M : isCustomGraph INITIAL_BODY_B <> Some true) by discriminate.
  destruct (constant_acceleration INITIAL_BODY_B 3 M) as (s & E & V & X).
  exists s. split; [exact E|]. split; [rewrite V|rewrite X]; reflexivity.
Defined.

(** C10. A body whose graph flag is set but whose graph is absent or has
    fewer than two points is evaluated, at every [t], by the
    constant-acceleration formulas; the evaluation does not fail. *)
Theorem degenerate_graph_falls_back (body : BodyParams) (t : Q) :
  isCustomGraph body = Some true ->
  (graphPoints body = None \/
   exists pts, graphPoints body = Some pts /\ (List.length pts < 2)%nat) ->
  exists s,
    calculateStateAtTime body t = Ok s /\
    s_x s == x0 body + v0 body * t + (1 # 2) * a body * t ^ 2 /\
    s_v s == v0 body + a body * t.
Proof.
  intros F G.
  assert (C : customGraph body = None).
  { unfold customGraph. rewrite F. destruct G as [->|(pts & -> & L)]; [reflexivity|].
    destruct (Nat.leb_spec 2 (List.length pts)); [lia|reflexivity]. }
  eexists. split.
  - unfold calculateStateAtTime. rewrite C. reflexivity.
  - cbn [s_x s_v]. split; [|reflexivity]. change (t ^ 2) with (t * t). ring.
Qed.

Lemma degenerate_graph_falls_back_witness :
  (exists s, calculateStateAtTime onePointBody 3 = Ok s /\
             s_x s == 25 /\ s_v s == 14) /\
  (exists s, calculateStateAtTime noGraphBody 3 = Ok s /\
             s_x s == 25 /\ s_v s == 14).
Proof.
  split.
  - assert (G : graphPoints onePointBody = None \/
                exists pts, graphPoints onePointBody = Some pts /\
                            (List.length pts < 2)%nat).
    { right. exists [mkPoint 0 7]. split; [reflexivity|cbn; lia]. }
    destruct (degenerate_graph_falls_back onePointBody 3 eq_refl G)
      as (s & E & X & V).
    exists s. split; [exact E|]. split; [rewrite X|rewrite V]; reflexivity.
  - assert (G : graphPoints noGraphBody = None \/
                exists pts, graphPoints noGraphBody = Some pts /\
                            (List.length pts < 2)%nat) by (left; reflexivity).
    destruct (degenerate_graph_falls_back noGraphBody 3 eq_refl G)
      as (s & E & X & V).
    exists s. split; [exact E|]. split; [rewrite X|rewrite V]; reflexivity.
Defined.

(** C8. Evaluation never divides by zero: for every body and every [t]
    the calculator returns a state, the division being the only operation
    that could fail and failing exactly on a zero divisor; and a segment
    of two points with the same time is left by the loop, through the
    future-segment test or the [dt <= 0] test, with position and velocity
    unchanged and before the slope is computed. *)
Theorem no_division_by_zero (body : BodyParams) (t : Q) :
  (exists s, calculateStateAtTime body t = Ok s) /\
  (forall pts x v, integrate pts t x v <> DivByZero) /\
  (forall n d, JS.div n d = DivByZero <-> d == 0) /\
  (forall p1 p2 rest x v,
     p_t p2 == p_t p1 ->
     integrate (p1 :: p2 :: rest) t x v =
     if t <=? p_t p1 then Ok (mkState x v)
     else integrate (p2 :: rest) t x v).
Proof.
  split; [apply calculateStateAtTime_ok|]. split; [|split].
  - intros pts x v. destruct (integrate_ok pts t x v) as [s ->]. discriminate.
  - intros n d. unfold JS.div. destruct (Qeq_bool d 0) eqn:E.
    + apply Qeq_bool_iff in E. tauto.
    + split; [discriminate|]. intro Z. apply Qeq_bool_iff in Z. congruence.
  - intros. now apply integrate_degenerate.
Qed.

Lemma no_division_by_zero_witness :
  (exists s, calculateStateAtTime duplicateTimeBody 7 = Ok s) /\
  integrate [mkPoint 5 1; mkPoint 5 3; mkPoint 10 0] 7 (5 # 2) 1 =
  integrate [mkPoint 5 3; mkPoint 10 0] 7 (5 # 2) 1.
Proof.
  destruct (no_division_by_zero duplicateTimeBody 7) as (T & _ & _ & D).
  split; [exact T|].
  assert (E : p_t (mkPoint 5 3) == p_t (mkPoint 5 1)) by reflexivity.
  exact (D (mkPoint 5 1) (mkPoint 5 3) [mkPoint 10 0] (5 # 2) 1 E).
Defined.

(** ** Playback Clock: the claims *)

Lemma clamp_inside (t lo hi : Q) : lo <= t -> t <= hi -> clamp t lo hi == t.
Proof.
  intros L H. unfold clamp, JS.max, JS.min.
  destruct (hi <=? t) eqn:E1; [destruct (lo <=? hi) eqn:E2|destruct (lo <=? t) eqn:E2];
    order_hyps; lra.
Qed.

(** C5, as stated, fails: a seek on a playing clock pauses it. *)
Lemma seek_pauses_playing_clock :
  isPlaying playingClock = true /\
  0 <= 5 <= MAX_TIME /\
  isPlaying (handleSeek 5 playingClock) = false /\
  isPlaying (handleSeek 5 playingClock) <> isPlaying playingClock.
Proof.
  split; [reflexivity|]. split; [unfold MAX_TIME; lra|].
  split; [reflexivity|]. cbn. discriminate.
Qed.

(** C5, amended. For every slider value [t] with [0 <= t <= MAX_TIME]
    (the range of the slider) and in both clock states, the seek handler
    sets the cursor to [t], which is [clamp(t, 0, MAX_TIME)], and leaves
    the clock paused with no frame requested, whatever the state was. *)
Theorem seek_sets_cursor_and_pauses (value : Q) (clk : Clock) :
  0 <= value -> value <= MAX_TIME ->
  currentTime (handleSeek value clk) = value /\
  currentTime (handleSeek value clk) == clamp value 0 MAX_TIME /\
  isPlaying (handleSeek value clk) = false /\
  scheduled (handleSeek value clk) = None.
Proof.
  intros L H. cbn. repeat split. symmetry. now apply clamp_inside.
Qed.

Lemma seek_sets_cursor_and_pauses_witness :
  currentTime (handleSeek 5 playingClock) = 5 /\
  currentTime (handleSeek 5 playingClock) == clamp 5 0 MAX_TIME /\
  isPlaying (handleSeek 5 playingClock) = false /\
  scheduled (handleSeek 5 playingClock) = None.
Proof.
  apply (seek_sets_cursor_and_pauses 5 playingClock); unfold MAX_TIME; lra.
Defined.

(** Every frame of one run of the clock is served by the [animate]
    closure of the render that started the run, so every frame computes
    the same [nextTime]: after the first tick the cursor stays where it
    is and the clock keeps playing. *)
Lemma ticks_after_play (c : Q) (n : nat) (clk : Clock) :
  isPlaying clk = false -> currentTime clk = c ->
  c + (5 # 100) < MAX_TIME ->
  ticks (S n) (togglePlaying clk) = mkClock true (c + (5 # 100)) (Some c).
Proof.
  intros P C L.
  assert (T : forall k, tick (mkClock true k (Some c))
                        = mkClock true (c + (5 # 100)) (Some c)).
  { intro k. cbn [tick scheduled]. unfold animate.
    destruct (MAX_TIME <=? c + (5 # 100)) eqn:E; [order_hyps; lra|reflexivity]. }
  unfold togglePlaying, playingEffect. rewrite P, C. cbn [negb isPlaying currentTime].
  cbn [ticks]. rewrite T. induction n as [|n IH]; [reflexivity|].
  cbn [ticks]. now rewrite T.
Qed.

(** C7, evaluated: started at cursor 0, the clock is at 0.05 after one
    tick and still at 0.05, and still playing, after two and after a
    hundred ticks; the second tick does not advance the cursor. *)
Theorem playback_stalls_after_first_tick :
  isPlaying playingClock = true /\
  currentTime (ticks 1 playingClock) == 5 # 100 /\
  currentTime (ticks 2 playingClock) == 5 # 100 /\
  currentTime (ticks 100 playingClock) == 5 # 100 /\
  isPlaying (ticks 100 playingClock) = true /\
  ~ currentTime (ticks 1 playingClock) < currentTime (ticks 2 playingClock) /\
  ~ currentTime (ticks 2 playingClock)
    == currentTime (ticks 1 playingClock) + (5 # 100).
Proof.
  assert (L : 0 + (5 # 100) < MAX_TIME) by (unfold MAX_TIME; lra).
  unfold playingClock.
  rewrite !(ticks_after_play 0 _ initialClock eq_refl eq_refl L).
  cbn [currentTime isPlaying]. repeat split; try reflexivity; lra.
Qed.

(** The cursor stays within [[0, MAX_TIME]], and so does the time a
    requested frame has captured. *)
Lemma reachable_cursor_bounded (clk : Clock) :
  reachable clk ->
  (0 <= currentTime clk /\ currentTime clk <= MAX_TIME) /\
  (forall c, scheduled clk = Some c -> 0 <= c /\ c <= MAX_TIME).
Proof.
  induction 1 as [|clk R [B S]|clk R [B S]|clk value R [B S] L H|clk R [B S]].
  - split; [unfold MAX_TIME; cbn; lra|discriminate].
  - unfold togglePlaying, playingEffect. cbn [isPlaying currentTime].
    destruct (negb (isPlaying clk)); cbn [currentTime scheduled];
      (split; [exact B|]); [intros c [= <-]; exact B|discriminate].
  - cbn. split; [unfold MAX_TIME; lra|discriminate].
  - cbn. split; [now split|discriminate].
  - unfold tick. destruct (scheduled clk) as [c|] eqn:E;
      [|split; [exact B|rewrite E; discriminate]].
    specialize (S c eq_refl). unfold animate.
    destruct (MAX_TIME <=? c + (5 # 100)) eqn:G; cbn [currentTime scheduled].
    + split; [unfold MAX_TIME; lra|discriminate].
    + order_hyps. split; [lra|]. now intros c' [= <-].
Qed.

(** ** Graph Editor: the claims *)


Section GraphEditor.

Import GraphBuilder.

(** [findIndexFrom] returns [-1] when no element satisfies the
    predicate, and otherwise the index of the first one that does. *)
Lemma findIndexFrom_spec (f : Point -> bool) (l : list Point) :
  forall i0,
    (findIndexFrom f l i0 = (-1)%Z /\ forall q, In q l -> f q = false) \/
    (exists k p,
        findIndexFrom f l i0 = (i0 + Z.of_nat k)%Z /\
        nth_error l k = Some p /\ f p = true /\
        forall j q, (j < k)%nat -> nth_error l j = Some q -> f q = false).
Proof.
  induction l as [|p l IH]; intro i0; cbn [findIndexFrom].
  - left. split; [reflexivity|]. intros q [].
  - destruct (f p) eqn:E.
    + right. exists 0%nat, p. rewrite Z.add_0_r.
      repeat split; [exact E|]. intros; lia.
    + destruct (IH (i0 + 1)%Z) as [[-> N]|(k & q & -> & H & T & L)].
      * left. split; [reflexivity|]. intros q [<-|Hq]; [exact E|now apply N].
      * right. exists (S k), q. repeat split; [lia|exact H|exact T|].
        intros [|j] r Hj; cbn [nth_error]; [now intros [= <-]|].
        apply L. lia.
Qed.

(** The first element that satisfies the predicate is unique. *)
Lemma first_match_unique (f : Point -> bool) (l : list Point)
      (k k' : nat) (p p' : Point) :
  nth_error l k = Some p -> f p = true ->
  (forall j q, (j < k)%nat -> nth_error l j = Some q -> f q = false) ->
  nth_error l k' = Some p' -> f p' = true ->
  (forall j q, (j < k')%nat -> nth_error l j = Some q -> f q = false) ->
  k = k'.
Proof.
  intros H T L H' T' L'.
  destruct (Nat.lt_trichotomy k k') as [C|[C|C]]; [|exact C|].
  - rewrite (L' k p C H) in T. discriminate.
  - rewrite (L k' p' C H') in T'. discriminate.
Qed.

Lemma findIndex_first (f : Point -> bool) (l : list Point) (k : nat) (p : Point) :
  nth_error l k = Some p -> f p = true ->
  (forall j q, (j < k)%nat -> nth_error l j = Some q -> f q = false) ->
  findIndex f l = Z.of_nat k.
Proof.
  intros H T L. unfold findIndex.
  destruct (findIndexFrom_spec f l 0) as [[_ N]|(k' & p' & -> & H' & T' & L')].
  - rewrite (N p) in T; [discriminate|]. eapply nth_error_In, H.
  - now rewrite (first_match_unique f l k k' p p').
Qed.

Lemma findIndex_none (f : Point -> bool) (l : list Point) :
  (forall q, In q l -> f q = false) -> findIndex f l = (-1)%Z.
Proof.
  intro N. unfold findIndex.
  destruct (findIndexFrom_spec f l 0) as [[E _]|(k & p & _ & H & T & _)];
    [exact E|].
  rewrite (N p) in T; [discriminate|]. eapply nth_error_In, H.
Qed.

(** Filtering out one index removes the element at that index. *)
Lemma filterIndexFrom_remove (l : list Point) :
  forall (k : nat) (i0 : Z),
    (k < List.length l)%nat ->
    filterIndexFrom (fun i => negb (i =? i0 + Z.of_nat k)%Z) l i0 =
    firstn k l ++ skipn (S k) l.
Proof.
  assert (Keep : forall (l : list Point) (c i0 : Z), (c < i0)%Z ->
             filterIndexFrom (fun i => negb (i =? c)%Z) l i0 = l).
  { clear l. induction l as [|p l IH]; intros c i0 Hc; cbn [filterIndexFrom];
      [reflexivity|].
    destruct (Z.eqb_spec i0 c); [lia|]. cbn [negb].
    rewrite IH by lia. reflexivity. }
  induction l as [|p l IH]; intros k i0 Hk; cbn [List.length] in Hk; [lia|].
  cbn [filterIndexFrom]. destruct k as [|k].
  - rewrite Z.add_0_r, Z.eqb_refl. cbn [negb firstn skipn app].
    apply Keep. lia.
  - destruct (Z.eqb_spec i0 (i0 + Z.of_nat (S k))); [lia|]. cbn [negb].
    replace (i0 + Z.of_nat (S k))%Z with (i0 + 1 + Z.of_nat k)%Z by lia.
    rewrite IH by lia. reflexivity.
Qed.

#[local] Instance max_proper : Proper (Qeq ==> Qeq ==> Qeq) JS.max.
Proof.
  intros a a' Ha b b' Hb. unfold JS.max. rewrite Ha, Hb.
  now destruct (a' <=? b').
Qed.

#[local] Instance toFixed1_proper : Proper (Qeq ==> Qeq) JS.toFixed1.
Proof.
  intros q q' H. unfold JS.toFixed1. rewrite H.
  destruct (q' <? 0); now rewrite H.
Qed.

(** Inside the domain a pixel maps back to the coordinate it displays. *)
Lemma xToT_tToX (t : Q) : 0 <= t -> t <= tMax -> xToT (tToX t) == t.
Proof.
  intros L H.
  assert (E : ((tToX t - padding) / (width - 2 * padding)) * tMax == t)
    by (unfold tToX, padding, width, tMax; field).
  change (xToT (tToX t))
    with (clamp (((tToX t - padding) / (width - 2 * padding)) * tMax) 0 tMax).
  unfold clamp. rewrite E. now apply clamp_inside.
Qed.

Lemma yToV_vToY (v : Q) : vMin <= v -> v <= vMax -> yToV (vToY v) == v.
Proof.
  intros L H.
  assert (E : vMin + ((height - padding - vToY v) / (height - 2 * padding))
                     * (vMax - vMin) == v)
    by (unfold vToY, padding, height, vMin, vMax; field).
  change (yToV (vToY v))
    with (clamp (vMin + ((height - padding - vToY v) / (height - 2 * padding))
                        * (vMax - vMin)) vMin vMax).
  unfold clamp. rewrite E. now apply clamp_inside.
Qed.

(** The example's first pick yields these points. *)
Lemma pick_reset_5_3 :
  pick resetPoints 5 3 = [mkPoint 0 0; mkPoint (50 # 10) (30 # 10); mkPoint 20 0].
Proof. vm_compute. reflexivity. Qed.



End GraphEditor.

(** * Further properties of the code *)

(** ** State Calculator *)

Lemma insert_by_t_head (p : Point) (l : list Point) :
  (forall q, In q l -> p_t p <= p_t q) -> insert_by_t p l = p :: l.
Proof.
  destruct l as [|q l]; intro H; cbn [insert_by_t]; [reflexivity|].
  assert (E : (p_t p <=? p_t q) = true)
    by (apply leb_true, H; now left).
  now rewrite E.
Qed.

(** Sorting a sorted graph leaves it as it is. *)
Lemma sort_by_t_sorted_id (l : list Point) :
  StronglySorted le_t l -> sort_by_t l = l.
Proof.
  induction 1 as [|p l S IH F]; [reflexivity|].
  change (sort_by_t (p :: l)) with (insert_by_t p (sort_by_t l)).
  rewrite IH. apply insert_by_t_head. now rewrite Forall_forall in F.
Qed.

Lemma calculateStateAtTime_graph (body : BodyParams) (pts : list Point) (t : Q) :
  customGraph body = Some pts -> 0 < t ->
  calculateStateAtTime body t = integrate (sort_by_t pts) t (x0 body) 0.
Proof.
  intros C P. unfold calculateStateAtTime. rewrite C. cbv zeta.
  assert (B : (t <=? 0) = false) by now apply leb_false.
  now rewrite B.
Qed.

(** X1. A graph of two points with the same velocity [c], at times 0 and [T],
    moves the body at constant velocity: at every [0 <= t <= T] the
    position is [x0 + c*t] and the velocity is [c]. *)
Theorem constant_velocity_graph (body : BodyParams) (c T t : Q) :
  isCustomGraph body = Some true ->
  graphPoints body = Some [mkPoint 0 c; mkPoint T c] ->
  0 <= t -> t <= T ->
  exists s,
    calculateStateAtTime body t = Ok s /\
    s_x s == x0 body + c * t /\ s_v s == c.
Proof.
  intros F G L0 LT.
  assert (C : customGraph body = Some [mkPoint 0 c; mkPoint T c])
    by (apply customGraph_some; [exact F|exact G|cbn; lia]).
  assert (S : sort_by_t [mkPoint 0 c; mkPoint T c] = [mkPoint 0 c; mkPoint T c]).
  { apply sort_by_t_sorted_id. repeat constructor. unfold le_t. cbn. lra. }
  destruct (Qlt_le_dec 0 t) as [P|N].
  - rewrite (calculateStateAtTime_graph body _ t C P), S, integrate_step.
    cbv zeta. cbn [p_t p_v].
    assert (B1 : (t <=? 0) = false) by now apply leb_false.
    rewrite B1.
    destruct (min_cases T t) as [[Le E]|[Lt E]]; rewrite E.
    + assert (B2 : (T - 0 <=? 0) = false) by (apply leb_false; lra).
      rewrite B2, div_ok by lra. cbn [bind].
      assert (B3 : (t <=? T) = true) by now apply leb_true.
      rewrite B3. eexists. split; [reflexivity|]. cbn [s_x s_v].
      assert (ET : T == t) by lra. split; [rewrite ET; field; lra|field; lra].
    + assert (B2 : (t - 0 <=? 0) = false) by (apply leb_false; lra).
      rewrite B2, div_ok by lra. cbn [bind].
      assert (B3 : (t <=? T) = true) by now apply leb_true.
      rewrite B3. eexists. split; [reflexivity|]. cbn [s_x s_v].
      split; field; lra.
  - assert (B : (t <=? 0) = true) by now apply leb_true.
    unfold calculateStateAtTime. rewrite C. cbv zeta. rewrite S, B.
    eexists. split; [reflexivity|]. cbn [s_x s_v hd p_v].
    split; [|reflexivity]. assert (Z : t == 0) by lra. rewrite Z. ring.
Qed.

Lemma integrate_interpolates (l1 : list Point) :
  forall p q l2 t x v,
    (forall b, In b l1 -> p_t b < t) -> p_t p < t -> t <= p_t q ->
    exists s,
      integrate (l1 ++ p :: q :: l2) t x v = Ok s /\
      s_v s == p_v p + (p_v q - p_v p) / (p_t q - p_t p) * (t - p_t p).
Proof.
  induction l1 as [|a l1 IH]; intros p q l2 t x v H Lp Lq.
  - cbn [app]. rewrite integrate_step. cbv zeta.
    assert (B1 : (t <=? p_t p) = false) by now apply leb_false.
    assert (M : JS.min (p_t q) t == t)
      by (destruct (min_cases (p_t q) t) as [[? ->]|[? ->]]; lra).
    assert (B2 : (JS.min (p_t q) t - p_t p <=? 0) = false)
      by (apply leb_false; rewrite M; lra).
    assert (B3 : (t <=? p_t q) = true) by now apply leb_true.
    rewrite B1, B2, div_ok, B3 by lra. cbn [bind].
    eexists. split; [reflexivity|]. cbn [s_v]. now rewrite M.
  - assert (La : p_t a < t) by (apply H; now left).
    assert (H' : forall b, In b l1 -> p_t b < t)
      by (intros b Hb; apply H; now right).
    assert (N : exists b tl, l1 ++ p :: q :: l2 = b :: tl /\ p_t b < t).
    { destruct l1 as [|b l1']; cbn [app]; eexists; eexists; (split; [reflexivity|]);
        [exact Lp|apply H'; now left]. }
    destruct N as (b & tl & E & Lb).
    cbn [app]. rewrite E, integrate_step, <- E. cbv zeta.
    assert (B1 : (t <=? p_t a) = false) by now apply leb_false.
    rewrite B1.
    destruct (JS.min (p_t b) t - p_t a <=? 0) eqn:D; [now apply IH|].
    order_hyps. rewrite div_ok by (pose proof (min_le_l (p_t b) t); lra).
    cbn [bind].
    assert (B3 : (t <=? p_t b) = false) by now apply leb_false.
    rewrite B3. now apply IH.
Qed.

Lemma sorted_app_le (l1 : list Point) (p : Point) (r : list Point) :
  StronglySorted le_t (l1 ++ p :: r) -> forall b, In b l1 -> p_t b <= p_t p.
Proof.
  induction l1 as [|a l1 IH]; intros S b Hb; [destruct Hb|].
  cbn [app] in S. inversion S as [|? ? S' F]; subst.
  destruct Hb as [<-|Hb]; [|now apply IH].
  rewrite Forall_forall in F. apply (F p). apply in_or_app. right. now left.
Qed.

(** X2. In piecewise mode the velocity at a time inside a segment of the
    sorted graph, after its start and up to its end, is the linear
    interpolation between the segment's two control points. *)
Theorem velocity_is_interpolated (body : BodyParams) (pts l1 l2 : list Point)
        (p q : Point) (t : Q) :
  isCustomGraph body = Some true ->
  graphPoints body = Some pts ->
  sort_by_t pts = l1 ++ p :: q :: l2 ->
  0 < t -> p_t p < t -> t <= p_t q ->
  exists s,
    calculateStateAtTime body t = Ok s /\
    s_v s == p_v p + (p_v q - p_v p) / (p_t q - p_t p) * (t - p_t p).
Proof.
  intros F G E P Lp Lq.
  assert (L : (2 <= List.length pts)%nat).
  { rewrite <- sort_by_t_length, E, length_app. cbn. lia. }
  rewrite (calculateStateAtTime_graph body pts t (customGraph_some _ _ F G L) P), E.
  apply integrate_interpolates; [|exact Lp|exact Lq].
  intros b Hb. pose proof (sort_by_t_sorted pts) as S. rewrite E in S.
  pose proof (sorted_app_le l1 p _ S b Hb). lra.
Qed.

Lemma velocity_is_interpolated_witness :
  exists s, calculateStateAtTime triangleBody 15 = Ok s /\ s_v s == 5.
Proof.
  assert (P : 0 < 15) by reflexivity.
  assert (Lp : p_t (mkPoint 10 10) < 15) by reflexivity.
  assert (Lq : 15 <= p_t (mkPoint 20 0)) by (cbn; lra).
  destruct (velocity_is_interpolated triangleBody _ [mkPoint 0 0] []
              (mkPoint 10 10) (mkPoint 20 0) 15 eq_refl eq_refl eq_refl P Lp Lq)
    as (s & E & V).
  exists s. split; [exact E|]. rewrite V. reflexivity.
Defined.

(** X3. In piecewise mode, at a time after 0 that is not after any control
    point, the body has not started: the position is [x0] and the
    velocity is 0, whatever the velocity of the first control point. *)
Theorem before_first_control_point (body : BodyParams) (pts : list Point) (t : Q) :
  isCustomGraph body = Some true ->
  graphPoints body = Some pts ->
  (2 <= List.length pts)%nat ->
  0 < t -> (forall p, In p pts -> t <= p_t p) ->
  calculateStateAtTime body t = Ok (mkState (x0 body) 0).
Proof.
  intros F G L P H.
  rewrite (calculateStateAtTime_graph body pts t (customGraph_some _ _ F G L) P).
  pose proof (sort_by_t_perm pts) as Pm.
  destruct (sort_by_t pts) as [|p1 [|p2 rest]] eqn:E;
    try (apply Permutation_length in Pm; cbn in Pm; lia).
  rewrite integrate_step.
  assert (B : (t <=? p_t p1) = true).
  { apply leb_true, H. apply (Permutation_in _ (Permutation_sym Pm)). now left. }
  now rewrite B.
Qed.

Lemma before_first_control_point_witness :
  calculateStateAtTime lateStartBody 3 = Ok (mkState 7 0).
Proof.
  assert (L : (2 <= 2)%nat) by lia.
  assert (P : 0 < 3) by reflexivity.
  apply (before_first_control_point lateStartBody _ 3 eq_refl eq_refl L P).
  intros p [<-|[<-|[]]]; cbn; lra.
Defined.

(** Segments of no duration leave position and velocity as they are. *)
Lemma integrate_same_time (pts : list Point) (tau : Q) :
  (forall p, In p pts -> p_t p == tau) ->
  forall t x v, integrate pts t x v = Ok (mkState x v).
Proof.
  induction pts as [|p1 rest IH]; intros H t x v; [reflexivity|].
  destruct rest as [|p2 rest']; [reflexivity|].
  rewrite integrate_degenerate.
  - destruct (t <=? p_t p1); [reflexivity|].
    apply IH. intros p Hp. apply H. now right.
  - rewrite (H p1), (H p2); [reflexivity|right; now left|now left].
Qed.

Lemma integrate_past_end (pts : list Point) :
  StronglySorted le_t pts ->
  forall t t' x x' v v' s s',
    (forall p, In p pts -> p_t p <= t) ->
    (forall p, In p pts -> p_t p <= t') ->
    x == x' -> v == v' ->
    integrate pts t x v = Ok s -> integrate pts t' x' v' = Ok s' ->
    State_eq s s'.
Proof.
  induction 1 as [|p1 rest S IH F]; intros t t' x x' v v' s s' H H' Hx Hv E E'.
  { cbn in E, E'. apply Ok_inj in E, E'. subst. now split. }
  destruct rest as [|p2 rest'].
  { cbn in E, E'. apply Ok_inj in E, E'. subst. now split. }
  assert (Same : forall u, (forall p, In p (p1 :: p2 :: rest') -> p_t p <= u) ->
                 forall q, (u <=? p_t q) = true -> In q (p1 :: p2 :: rest') ->
                 (forall p, In p (p1 :: p2 :: rest') -> p_t q <= p_t p) ->
                 forall w y z, integrate (p1 :: p2 :: rest') w y z = Ok (mkState y z)).
  { intros u Hu q Bq Hq Hmin w y z. order_hyps.
    apply (integrate_same_time _ u). intros p Hp.
    pose proof (Hu p Hp). pose proof (Hmin p Hp). pose proof (Hu q Hq). lra. }
  assert (Min1 : forall p, In p (p1 :: p2 :: rest') -> p_t p1 <= p_t p).
  { intros p [<-|Hp]; [lra|]. rewrite Forall_forall in F. now apply F. }
  destruct (t <=? p_t p1) eqn:B1; destruct (t' <=? p_t p1) eqn:B1'.
  - rewrite integrate_step, B1 in E. rewrite integrate_step, B1' in E'.
    apply Ok_inj in E, E'. subst. now split.
  - rewrite integrate_step, B1 in E. apply Ok_inj in E. subst.
    rewrite (Same t H p1 B1 (or_introl eq_refl) Min1) in E'.
    apply Ok_inj in E'. subst. now split.
  - rewrite integrate_step, B1' in E'. apply Ok_inj in E'. subst.
    rewrite (Same t' H' p1 B1' (or_introl eq_refl) Min1) in E.
    apply Ok_inj in E. subst. now split.
  - rewrite integrate_step, B1 in E. rewrite integrate_step, B1' in E'.
    cbv zeta in E, E'.
    assert (L2 : p_t p2 <= t) by (apply H; right; now left).
    assert (L2' : p_t p2 <= t') by (apply H'; right; now left).
    assert (M : JS.min (p_t p2) t = p_t p2)
      by (unfold JS.min; now rewrite (proj2 (leb_true _ _) L2)).
    assert (M' : JS.min (p_t p2) t' = p_t p2)
      by (unfold JS.min; now rewrite (proj2 (leb_true _ _) L2')).
    rewrite M in E. rewrite M' in E'.
    assert (Hr : forall p, In p (p2 :: rest') -> p_t p <= t)
      by (intros p Hp; apply H; now right).
    assert (Hr' : forall p, In p (p2 :: rest') -> p_t p <= t')
      by (intros p Hp; apply H'; now right).
    destruct (p_t p2 - p_t p1 <=? 0) eqn:D.
    { exact (IH t t' x x' v v' s s' Hr Hr' Hx Hv E E'). }
    order_hyps. rewrite div_ok in E, E' by lra. cbn [bind] in E, E'.
    set (vEnd := p_v p1 + (p_v p2 - p_v p1) / (p_t p2 - p_t p1) * (p_t p2 - p_t p1)) in *.
    set (dx := (p_v p1 + vEnd) / 2 * (p_t p2 - p_t p1)) in *.
    assert (Hx2 : x + dx == x' + dx) by now rewrite Hx.
    assert (Min2 : forall p, In p (p2 :: rest') -> p_t p2 <= p_t p).
    { inversion S as [|? ? _ F2]; subst.
      intros p [<-|Hp]; [lra|]. rewrite Forall_forall in F2. now apply F2. }
    assert (Tail : forall u, (forall p, In p (p2 :: rest') -> p_t p <= u) ->
                   (u <=? p_t p2) = true ->
                   forall w y z, integrate (p2 :: rest') w y z = Ok (mkState y z)).
    { intros u Hu Bq w y z. order_hyps.
      apply (integrate_same_time _ u). intros p Hp.
      pose proof (Hu p Hp). pose proof (Min2 p Hp).
      pose proof (Hu p2 (or_introl eq_refl)). lra. }
    destruct (t <=? p_t p2) eqn:B2; destruct (t' <=? p_t p2) eqn:B2'.
    + apply Ok_inj in E, E'. subst. now split.
    + apply Ok_inj in E. subst. rewrite (Tail t Hr B2) in E'.
      apply Ok_inj in E'. subst. now split.
    + apply Ok_inj in E'. subst. rewrite (Tail t' Hr' B2') in E.
      apply Ok_inj in E. subst. now split.
    + exact (IH t t' _ _ _ _ s s' Hr Hr' Hx2 (Qeq_refl vEnd) E E').
Qed.

(** X4. In piecewise mode the body stands still after the last control point:
    at any two times that are after 0 and not before any control point
    the position is the same, and so is the reported velocity (which is
    not reset to 0). *)
Theorem frozen_after_last_control_point (body : BodyParams) (pts : list Point)
        (t t' : Q) :
  isCustomGraph body = Some true ->
  graphPoints body = Some pts ->
  (2 <= List.length pts)%nat ->
  0 < t -> 0 < t' ->
  (forall p, In p pts -> p_t p <= t) ->
  (forall p, In p pts -> p_t p <= t') ->
  exists s s',
    calculateStateAtTime body t = Ok s /\
    calculateStateAtTime body t' = Ok s' /\
    State_eq s s'.
Proof.
  intros F G L P P' H H'.
  pose proof (customGraph_some _ _ F G L) as C.
  rewrite (calculateStateAtTime_graph body pts t C P).
  rewrite (calculateStateAtTime_graph body pts t' C P').
  destruct (integrate_ok (sort_by_t pts) t (x0 body) 0) as [s E].
  destruct (integrate_ok (sort_by_t pts) t' (x0 body) 0) as [s' E'].
  exists s, s'. split; [exact E|]. split; [exact E'|].
  pose proof (sort_by_t_perm pts) as Pm.
  eapply (integrate_past_end _ (sort_by_t_sorted pts) t t');
    [| |reflexivity|reflexivity|exact E|exact E'];
    intros p Hp; [apply H|apply H'];
    apply (Permutation_in _ (Permutation_sym Pm)); exact Hp.
Qed.

Lemma frozen_after_last_control_point_witness :
  exists s s',
    calculateStateAtTime triangleBody 20 = Ok s /\
    calculateStateAtTime triangleBody 25 = Ok s' /\
    State_eq s s'.
Proof.
  assert (L : (2 <= 3)%nat) by lia.
  assert (P : 0 < 20) by reflexivity.
  assert (P' : 0 < 25) by reflexivity.
  apply (frozen_after_last_control_point triangleBody _ 20 25
           eq_refl eq_refl L P P');
    intros p [<-|[<-|[<-|[]]]]; cbn; lra.
Defined.

(** Two sorted lists with the same points, no two of which share a time,
    are the same list. *)
Lemma sorted_perm_unique (l1 : list Point) :
  forall l2,
    StronglySorted le_t l1 -> StronglySorted le_t l2 -> Permutation l1 l2 ->
    (forall p q, In p l1 -> In q l1 -> p_t p == p_t q -> p = q) ->
    l1 = l2.
Proof.
  induction l1 as [|a l1 IH]; intros l2 S1 S2 P D.
  - apply Permutation_nil in P. now subst.
  - destruct l2 as [|b l2];
      [apply Permutation_sym, Permutation_nil in P; discriminate|].
    assert (Ab : p_t a <= p_t b).
    { apply (sorted_head_earliest a l1 (b :: l2) S1 (Permutation_sym P)).
      now left. }
    assert (Ba : p_t b <= p_t a).
    { apply (sorted_head_earliest b l2 (a :: l1) S2 P). now left. }
    assert (E : a = b).
    { apply D; [now left| |lra].
      apply (Permutation_in _ (Permutation_sym P)). now left. }
    subst b. f_equal. apply IH.
    + now inversion S1.
    + now inversion S2.
    + now apply Permutation_cons_inv in P.
    + intros p q Hp Hq. apply D; now right.
Qed.

(** X5. The order in which the control points are listed does not matter:
    two graphs with the same control points, no two of them at the same
    time, give the same state at every time. *)
Theorem graph_order_is_irrelevant (body : BodyParams) (pts pts' : list Point)
        (t : Q) :
  Permutation pts pts' ->
  (forall p q, In p pts -> In q pts -> p_t p == p_t q -> p = q) ->
  calculateStateAtTime (withGraph body pts) t
  = calculateStateAtTime (withGraph body pts') t.
Proof.
  intros P D.
  assert (E : sort_by_t pts = sort_by_t pts').
  { apply sorted_perm_unique; try apply sort_by_t_sorted.
    - rewrite <- (sort_by_t_perm pts), <- (sort_by_t_perm pts'). exact P.
    - intros p q Hp Hq. apply D;
        apply (Permutation_in _ (Permutation_sym (sort_by_t_perm pts)));
        assumption. }
  unfold calculateStateAtTime, customGraph. cbn [isCustomGraph graphPoints withGraph x0].
  rewrite (Permutation_length P).
  destruct (Nat.leb 2 (List.length pts')); [|reflexivity].
  cbv zeta. now rewrite E.
Qed.

Lemma graph_order_is_irrelevant_witness :
  calculateStateAtTime
    (withGraph INITIAL_BODY_A [mkPoint 20 0; mkPoint 0 0; mkPoint 10 10]) 15
  = calculateStateAtTime
      (withGraph INITIAL_BODY_A [mkPoint 0 0; mkPoint 10 10; mkPoint 20 0]) 15.
Proof.
  apply graph_order_is_irrelevant.
  - apply (Permutation_cons_append [mkPoint 0 0; mkPoint 10 10]).
  - intros p q [<-|[<-|[<-|[]]]] [<-|[<-|[<-|[]]]] H;
      try reflexivity; vm_compute in H; discriminate.
Defined.

(** ** Timeline Sampler and Crossing Detector *)




(** ** Playback Clock *)

Lemma ticks_reachable (n : nat) :
  forall clk, reachable clk -> reachable (ticks n clk).
Proof.
  induction n as [|n IH]; intros clk R; [exact R|].
  cbn [ticks]. apply IH. now apply reach_tick.
Qed.

(** X12. The cursor never leaves the horizon: in every state the clock can
    reach by the play/pause button, the reset, seeks to slider values and
    frames, and after any number of further frames, the cursor is between
    0 and [MAX_TIME]. *)
Theorem cursor_stays_within_horizon (clk : Clock) (n : nat) :
  reachable clk ->
  0 <= currentTime (ticks n clk) /\ currentTime (ticks n clk) <= MAX_TIME.
Proof.
  intro R. apply reachable_cursor_bounded. now apply ticks_reachable.
Qed.

Lemma cursor_stays_within_horizon_witness :
  0 <= currentTime (ticks 3 (togglePlaying (handleSeek (1999 # 100) playingClock))) /\
  currentTime (ticks 3 (togglePlaying (handleSeek (1999 # 100) playingClock)))
  <= MAX_TIME.
Proof.
  apply cursor_stays_within_horizon.
  apply reach_toggle, reach_seek;
    [apply reach_toggle, reach_initial|lra|unfold MAX_TIME; lra].
Defined.

Lemma ticks_unscheduled (n : nat) (clk : Clock) :
  scheduled clk = None -> ticks n clk = clk.
Proof.
  intro H. induction n as [|n IH]; [reflexivity|].
  cbn [ticks]. unfold tick. now rewrite H.
Qed.

(** A paused clock has no frame requested. *)
Lemma reachable_paused_unscheduled (clk : Clock) :
  reachable clk -> isPlaying clk = false -> scheduled clk = None.
Proof.
  induction 1 as [|clk R IH|clk R IH|clk value R IH L H|clk R IH]; intro P.
  - reflexivity.
  - unfold togglePlaying, playingEffect in *. cbn [isPlaying] in *.
    destruct (negb (isPlaying clk)); [cbn in P; discriminate P|reflexivity].
  - reflexivity.
  - reflexivity.
  - unfold tick in *. destruct (scheduled clk) as [c|] eqn:E; [|exact E].
    unfold animate in *.
    destruct (MAX_TIME <=? c + (5 # 100)); [reflexivity|].
    cbn [isPlaying] in P. discriminate (IH P).
Qed.

(** X13. Cancellation: once the clock is paused, by the button, the reset, a
    seek or the end of a run, no frame changes anything; any number of
    scheduler ticks leaves the cursor and the state as they are. *)
Theorem paused_clock_ignores_ticks (clk : Clock) (n : nat) :
  reachable clk -> isPlaying clk = false -> ticks n clk = clk.
Proof.
  intros R P. apply ticks_unscheduled. now apply reachable_paused_unscheduled.
Qed.

Lemma paused_clock_ignores_ticks_witness :
  ticks 7 (handleSeek 5 playingClock) = handleSeek 5 playingClock.
Proof.
  apply paused_clock_ignores_ticks; [|reflexivity].
  apply reach_seek; [apply reach_toggle, reach_initial|lra|unfold MAX_TIME; lra].
Defined.

(** X14. The outcome of a run: after play is pressed on a paused clock at
    cursor [c], one tick or more leave the clock paused at [MAX_TIME] when
    [c + 0.05] reaches [MAX_TIME], and otherwise playing at [c + 0.05],
    however many ticks there are. *)
Theorem playback_run_outcome (clk : Clock) (n : nat) :
  isPlaying clk = false ->
  ticks (S n) (togglePlaying clk) =
  if MAX_TIME <=? currentTime clk + (5 # 100)
  then mkClock false MAX_TIME None
  else mkClock true (currentTime clk + (5 # 100)) (Some (currentTime clk)).
Proof.
  intro P. destruct (MAX_TIME <=? currentTime clk + (5 # 100)) eqn:E.
  - cbn [ticks]. unfold togglePlaying, playingEffect. rewrite P.
    cbn [negb isPlaying currentTime]. cbn [tick scheduled]. unfold animate.
    rewrite E. now apply ticks_unscheduled.
  - apply ticks_after_play; [exact P|reflexivity|]. order_hyps. exact E.
Qed.

Lemma playback_run_outcome_witness :
  ticks 3 (togglePlaying (handleSeek (1999 # 100) initialClock))
  = mkClock false MAX_TIME None /\
  ticks 3 (togglePlaying (handleSeek 5 initialClock))
  = mkClock true (5 + (5 # 100)) (Some 5).
Proof.
  split.
  - apply (playback_run_outcome (handleSeek (1999 # 100) initialClock) 2).
    reflexivity.
  - apply (playback_run_outcome (handleSeek 5 initialClock) 2). reflexivity.
Defined.

(** ** Graph Editor *)

Section GraphEditorMore.

Import GraphBuilder.

Lemma clamp_range (q lo hi : Q) :
  lo <= hi -> lo <= clamp q lo hi /\ clamp q lo hi <= hi.
Proof.
  intro H. unfold clamp, JS.max, JS.min.
  destruct (hi <=? q) eqn:E1;
    [destruct (lo <=? hi) eqn:E2|destruct (lo <=? q) eqn:E2];
    order_hyps; lra.
Qed.

(** Rounding [r + 1/2] down stays between two integers that bound [r]. *)
Lemma round_bounds (r : Q) (z1 z2 : Z) :
  inject_Z z1 <= r -> r <= inject_Z z2 ->
  (z1 <= Qfloor (r + (1 # 2)) <= z2)%Z.
Proof.
  intros L H. split.
  - rewrite <- (Qfloor_Z z1). apply Qfloor_resp_le. lra.
  - assert (E : Qfloor (inject_Z z2 + (1 # 2)) = z2).
    { apply Qfloor_unique; [lra|].
      rewrite inject_Z_plus. change (inject_Z 1) with 1. lra. }
    rewrite <- E. apply Qfloor_resp_le. lra.
Qed.

Lemma toFixed1_bounds (q : Q) (z1 z2 : Z) :
  inject_Z z1 <= q * 10 -> q * 10 <= inject_Z z2 ->
  inject_Z z1 <= JS.toFixed1 q * 10 /\ JS.toFixed1 q * 10 <= inject_Z z2.
Proof.
  intros L H. unfold JS.toFixed1.
  assert (D : forall z, inject_Z z / 10 * 10 == inject_Z z)
    by (intro z; field).
  destruct (q <? 0).
  - destruct (round_bounds (- q * 10) (- z2) (- z1)) as [A B];
      try (rewrite inject_Z_opp; lra).
    rewrite Zle_Qle in A, B. rewrite inject_Z_opp in A, B.
    setoid_replace (- (inject_Z (Qfloor (- q * 10 + (1 # 2))) / 10) * 10)
      with (- (inject_Z (Qfloor (- q * 10 + (1 # 2))) / 10 * 10)) by ring.
    rewrite D. lra.
  - destruct (round_bounds (q * 10) z1 z2 L H) as [A B].
    rewrite Zle_Qle in A, B. rewrite D. lra.
Qed.

(** Rounding to one decimal moves a number by at most one twentieth. *)
Lemma toFixed1_close (q : Q) :
  - (1 # 20) <= JS.toFixed1 q - q /\ JS.toFixed1 q - q <= 1 # 20.
Proof.
  assert (F : forall r, inject_Z (Qfloor (r + (1 # 2))) <= r + (1 # 2) /\
                        r - (1 # 2) < inject_Z (Qfloor (r + (1 # 2)))).
  { intro r. split; [apply Qfloor_le|].
    pose proof (Qlt_floor (r + (1 # 2))) as H.
    rewrite inject_Z_plus in H. change (inject_Z 1) with 1 in H. lra. }
  assert (D : forall z, inject_Z z / 10 == inject_Z z * (1 # 10))
    by (intro z; field).
  unfold JS.toFixed1. destruct (q <? 0).
  - destruct (F (- q * 10)) as [A B]. rewrite D. lra.
  - destruct (F (q * 10)) as [A B]. rewrite D. lra.
Qed.

(** Whatever the pixel, the coordinate read from it, and its rounding to
    one decimal, lie inside the domain. *)
Lemma new_point_inDomain (x y : Q) :
  inDomain (mkPoint (JS.toFixed1 (xToT x)) (JS.toFixed1 (yToV y))).
Proof.
  unfold inDomain. cbn [p_t p_v].
  assert (T : 0 <= xToT x /\ xToT x <= tMax)
    by (apply (clamp_range _ 0 tMax); unfold tMax; lra).
  assert (V : vMin <= yToV y /\ yToV y <= vMax)
    by (apply (clamp_range _ vMin vMax); unfold vMin, vMax; lra).
  unfold tMax, vMin, vMax in *.
  destruct (toFixed1_bounds (xToT x) 0 200) as [A B];
    [change (inject_Z 0) with 0; lra|change (inject_Z 200) with 200; lra|].
  destruct (toFixed1_bounds (yToV y) (-100) 100) as [A' B'];
    [change (inject_Z (-100)) with (-100); lra
    |change (inject_Z 100) with 100; lra|].
  change (inject_Z 0) with 0 in A. change (inject_Z 200) with 200 in B.
  change (inject_Z (-100)) with (-100) in A'.
  change (inject_Z 100) with 100 in B'.
  repeat split; lra.
Qed.

Lemma remove_split (l1 l2 : list Point) (a : Point) :
  firstn (List.length l1) (l1 ++ a :: l2)
  ++ skipn (S (List.length l1)) (l1 ++ a :: l2) = l1 ++ l2.
Proof.
  induction l1 as [|b l1 IH]; [reflexivity|].
  cbn [List.length app firstn skipn]. f_equal. exact IH.
Qed.

(** The three outcomes of a click. *)
Lemma handleSvgClick_cases (points : list Point) (x y : Q) :
  (exists q, In q points /\ hit x y q = true /\
             handleSvgClick points x y = points) \/
  (exists l1 a l2,
      points = l1 ++ a :: l2 /\ l1 <> [] /\ l2 <> [] /\
      hit x y a = true /\ (forall q, In q l1 -> hit x y q = false) /\
      handleSvgClick points x y = l1 ++ l2) \/
  ((forall q, In q points -> hit x y q = false) /\
   handleSvgClick points x y =
   sort_by_t (points ++ [mkPoint (JS.toFixed1 (xToT x)) (JS.toFixed1 (yToV y))])).
Proof.
  unfold handleSvgClick, findIndex.
  destruct (findIndexFrom_spec (hit x y) points 0)
    as [[-> N]|(k & p & -> & H & T & L)].
  - right. right. split; [exact N|reflexivity].
  - rewrite Z.add_0_l.
    destruct (Z.leb_spec 0 (Z.of_nat k)); [|lia].
    destruct (nth_error_split _ _ H) as (l1 & l2 & E & Hk).
    destruct ((2 <? Z.of_nat (List.length points))%Z
              && negb (Z.of_nat k =? 0)%Z
              && negb (Z.of_nat k =? Z.of_nat (List.length points) - 1)%Z) eqn:G.
    + right. left. exists l1, p, l2.
      apply andb_true_iff in G as [G G3]. apply andb_true_iff in G as [G1 G2].
      apply negb_true_iff, Z.eqb_neq in G2, G3.
      assert (Len : List.length points = (List.length l1 + S (List.length l2))%nat)
        by (rewrite E, length_app; reflexivity).
      split; [exact E|]. split; [intros ->; cbn in Hk; lia|].
      split; [intros ->; cbn in Len; lia|]. split; [exact T|]. split.
      * intros q Hq. destruct (In_nth_error _ _ Hq) as [j Hj].
        assert (j < k)%nat
          by (rewrite <- Hk; apply nth_error_Some; rewrite Hj; discriminate).
        apply (L j); [assumption|]. rewrite E, nth_error_app1; [exact Hj|lia].
      * rewrite <- (Z.add_0_l (Z.of_nat k)), filterIndexFrom_remove by lia.
        rewrite E, <- Hk. apply remove_split.
    + left. exists p. split; [eapply nth_error_In, H|]. now split.
Qed.

Lemma sorted_remove (l1 l2 : list Point) (a : Point) :
  StronglySorted le_t (l1 ++ a :: l2) -> StronglySorted le_t (l1 ++ l2).
Proof.
  induction l1 as [|b l1 IH]; cbn [app]; intro S.
  - now inversion S.
  - inversion S as [|? ? S' F]; subst. constructor; [now apply IH|].
    rewrite Forall_forall in *. intros q Hq. apply F.
    apply in_app_or in Hq as [Hq|Hq]; apply in_or_app;
      [now left|right; now right].
Qed.

Lemma last_app_cons (l1 l2 : list Point) (a d : Point) :
  last (l1 ++ a :: l2) d = last (a :: l2) d.
Proof.
  induction l1 as [|b l1 IH]; [reflexivity|].
  cbn [app]. rewrite <- IH. cbn [last]. now destruct (l1 ++ a :: l2) eqn:E;
    [destruct l1; discriminate|].
Qed.

(** The last point of a sorted list is a latest point of the list. *)
Lemma sorted_last_latest (l : list Point) (d : Point) :
  StronglySorted le_t l ->
  forall q, In q l -> p_t q <= p_t (last l d).
Proof.
  induction 1 as [|p l S IH F]; intros q Hq; [destruct Hq|].
  destruct l as [|p' l'].
  - destruct Hq as [<-|[]]. cbn. lra.
  - change (last (p :: p' :: l') d) with (last (p' :: l') d).
    destruct Hq as [<-|Hq]; [|now apply IH].
    rewrite Forall_forall in F.
    pose proof (F p' (or_introl eq_refl)) as A. unfold le_t in A.
    pose proof (IH p' (or_introl eq_refl)). lra.
Qed.

Lemma last_In (l : list Point) (d : Point) : l <> [] -> In (last l d) l.
Proof.
  induction l as [|p l IH]; intro N; [contradiction|].
  destruct l as [|p' l']; [now left|].
  right. apply IH. discriminate.
Qed.

(** X16. Every click keeps the editor's points sorted by time, at least two,
    from time 0 to time [tMax], and inside the domain. *)
Theorem click_keeps_editor_invariant (points : list Point) (x y : Q) :
  editorInv points -> editorInv (handleSvgClick points x y).
Proof.
  intros (Srt & L & H0 & HT & D).
  destruct (handleSvgClick_cases points x y)
    as [(q & _ & _ & ->)|[(l1 & a & l2 & E & N1 & N2 & _ & _ & ->)|(_ & ->)]].
  - repeat split; assumption.
  - subst points. split; [now apply (sorted_remove l1 l2 a)|].
    destruct l1 as [|b l1]; [contradiction|].
    destruct l2 as [|c l2]; [contradiction|].
    split; [rewrite length_app; cbn; lia|].
    split; [exact H0|]. split.
    + rewrite last_app_cons in HT. rewrite last_app_cons.
      exact HT.
    + rewrite Forall_forall in *. intros q Hq. apply D.
      apply in_app_or in Hq as [Hq|Hq]; apply in_or_app;
        [now left|right; now right].
  - set (new := mkPoint (JS.toFixed1 (xToT x)) (JS.toFixed1 (yToV y))).
    pose proof (sort_by_t_perm (points ++ [new])) as P.
    pose proof (sort_by_t_sorted (points ++ [new])) as Srt'.
    assert (D' : Forall inDomain (points ++ [new])).
    { apply Forall_app. split; [exact D|].
      constructor; [apply new_point_inDomain|constructor]. }
    assert (D'' : Forall inDomain (sort_by_t (points ++ [new])))
      by (eapply Permutation_Forall; eassumption).
    assert (Len : List.length (sort_by_t (points ++ [new]))
                  = S (List.length points))
      by (rewrite sort_by_t_length, length_app; cbn; lia).
    split; [exact Srt'|]. split; [lia|].
    destruct points as [|p0 points']; [cbn in L; lia|].
    cbn [hd] in H0.
    destruct (sort_by_t ((p0 :: points') ++ [new])) as [|h r] eqn:E;
      [cbn in Len; lia|].
    split; [|split; [|exact D'']].
    + cbn [hd].
      assert (A : p_t h <= p_t p0).
      { apply (sorted_head_earliest h r _ Srt' P). now left. }
      rewrite Forall_forall in D''.
      destruct (D'' h (or_introl eq_refl)) as [[B _] _]. lra.
    + set (old := last (p0 :: points') (mkPoint 0 0)) in *.
      assert (A : p_t old <= p_t (last (h :: r) (mkPoint 0 0))).
      { apply sorted_last_latest; [exact Srt'|].
        apply (Permutation_in _ P), in_or_app. left.
        apply last_In. discriminate. }
      rewrite Forall_forall in D''.
      destruct (D'' (last (h :: r) (mkPoint 0 0))) as [[_ B] _];
        [apply last_In; discriminate|].
      lra.
Qed.

Lemma resetPoints_editorInv : editorInv resetPoints.
Proof.
  unfold editorInv, resetPoints. split.
  - repeat constructor. unfold le_t. cbn. lra.
  - split; [cbn; lia|]. split; [reflexivity|]. split; [reflexivity|].
    repeat constructor; cbn; unfold tMax, vMin, vMax; lra.
Qed.

Lemma picked_editorInv : editorInv (pick resetPoints 5 3).
Proof.
  rewrite pick_reset_5_3. unfold editorInv. split.
  - repeat constructor; unfold le_t; cbn; lra.
  - split; [cbn; lia|]. split; [reflexivity|]. split; [reflexivity|].
    repeat constructor; cbn; unfold tMax, vMin, vMax; lra.
Qed.

Lemma click_keeps_editor_invariant_witness :
  editorInv (pick resetPoints 5 3).
Proof.
  apply click_keeps_editor_invariant, resetPoints_editorInv.
Defined.

(** Sorting a sorted list with one point appended puts the point after
    the points that are not later than it. *)
Lemma sort_append_sorted (new : Point) (pts : list Point) :
  StronglySorted le_t pts ->
  exists l1 l2,
    pts = l1 ++ l2 /\ sort_by_t (pts ++ [new]) = l1 ++ new :: l2 /\
    (forall q, In q l1 -> p_t q <= p_t new) /\
    (forall q, In q l2 -> p_t new < p_t q).
Proof.
  unfold sort_by_t. rewrite fold_right_app. cbn [fold_right insert_by_t].
  induction 1 as [|p l S IH F].
  - exists [], []. repeat split; intros q [].
  - destruct IH as (l1 & l2 & E & R & A & B). cbn [fold_right]. rewrite R.
    rewrite Forall_forall in F.
    destruct (p_t p <=? p_t new) eqn:C; order_hyps.
    + exists (p :: l1), l2. split; [now rewrite E|]. split.
      * apply insert_by_t_head. intros q Hq.
        apply in_app_or in Hq as [Hq|[<-|Hq]];
          [apply F; rewrite E; apply in_or_app; now left
          |exact C
          |apply F; rewrite E; apply in_or_app; now right].
      * split; [|exact B]. intros q [<-|Hq]; [exact C|now apply A].
    + assert (N : l1 = []).
      { destruct l1 as [|b l1]; [reflexivity|exfalso].
        pose proof (A b (or_introl eq_refl)).
        assert (le_t p b) by (apply F; rewrite E; now left).
        unfold le_t in *. lra. }
      subst l1. cbn [app] in *. subst l2.
      exists [], (p :: l). split; [reflexivity|]. split.
      * cbn [insert_by_t app].
        assert (G : (p_t p <=? p_t new) = false) by now apply leb_false.
        rewrite G. f_equal. apply insert_by_t_head. exact F.
      * split; [intros q []|]. intros q [<-|Hq]; [exact C|].
        pose proof (F q Hq) as Hle. unfold le_t in Hle. lra.
Qed.

Lemma small_square (d c : Q) : - c <= d -> d <= c -> d * d <= c * c.
Proof. intros L H. nra. Qed.

Lemma xToT_inside (x : Q) :
  padding <= x -> x <= width - padding -> xToT x == (x - 40) * (1 # 26).
Proof.
  unfold padding, width. intros X1 X2.
  change (xToT x)
    with (clamp (((x - padding) / (width - 2 * padding)) * tMax) 0 tMax).
  unfold padding, width, tMax.
  rewrite clamp_inside.
  - field.
  - setoid_replace ((x - 40) / (600 - 2 * 40) * 20) with ((x - 40) * (1 # 26))
      by field. lra.
  - setoid_replace ((x - 40) / (600 - 2 * 40) * 20) with ((x - 40) * (1 # 26))
      by field. lra.
Qed.

Lemma yToV_inside (y : Q) :
  padding <= y -> y <= height - padding -> yToV y == (150 - y) * (1 # 11).
Proof.
  unfold padding, height. intros Y1 Y2.
  change (yToV y)
    with (clamp (vMin + ((height - padding - y) / (height - 2 * padding))
                        * (vMax - vMin)) vMin vMax).
  unfold padding, height, vMin, vMax.
  rewrite clamp_inside.
  - field.
  - setoid_replace (-10 + (300 - 40 - y) / (300 - 2 * 40) * (10 - -10))
      with ((150 - y) * (1 # 11)) by field. lra.
  - setoid_replace (-10 + (300 - 40 - y) / (300 - 2 * 40) * (10 - -10))
      with ((150 - y) * (1 # 11)) by field. lra.
Qed.

(** A click inside the drawing area is within the tolerance of the point
    it creates. *)
Lemma new_point_is_hit (x y : Q) :
  padding <= x -> x <= width - padding ->
  padding <= y -> y <= height - padding ->
  hit x y (mkPoint (JS.toFixed1 (xToT x)) (JS.toFixed1 (yToV y))) = true.
Proof.
  intros X1 X2 Y1 Y2.
  pose proof (xToT_inside x X1 X2) as Tx.
  pose proof (yToV_inside y Y1 Y2) as Vy.
  pose proof (toFixed1_close (xToT x)) as [A1 A2].
  pose proof (toFixed1_close (yToV y)) as [B1 B2].
  set (T := JS.toFixed1 (xToT x)) in *. set (V := JS.toFixed1 (yToV y)) in *.
  unfold hit. apply ltb_true. cbn [p_t p_v].
  assert (Px : tToX T == 40 + 26 * T)
    by (unfold tToX, padding, width, tMax; field).
  assert (Py : vToY V == 150 - 11 * V)
    by (unfold vToY, padding, height, vMin, vMax; field).
  rewrite Px, Py.
  pose proof (small_square (x - (40 + 26 * T)) (13 # 10)) as Sx.
  pose proof (small_square (y - (150 - 11 * V)) (11 # 20)) as Sy.
  assert (x - (40 + 26 * T) == 26 * (xToT x - T)) as Ex by (rewrite Tx; ring).
  assert (y - (150 - 11 * V) == 11 * (V - yToV y)) as Ey by (rewrite Vy; ring).
  assert (Hx : (x - (40 + 26 * T)) * (x - (40 + 26 * T)) <= (13 # 10) * (13 # 10))
    by (apply Sx; rewrite Ex; lra).
  assert (Hy : (y - (150 - 11 * V)) * (y - (150 - 11 * V)) <= (11 # 20) * (11 # 20))
    by (apply Sy; rewrite Ey; lra).
  lra.
Qed.

Lemma first_click_inserts (points : list Point) (x y : Q) :
  (forall q, In q points -> hit x y q = false) ->
  handleSvgClick points x y =
  sort_by_t (points ++ [mkPoint (JS.toFixed1 (xToT x)) (JS.toFixed1 (yToV y))]).
Proof.
  intro N. unfold handleSvgClick. now rewrite (findIndex_none (hit x y) points N).
Qed.

Lemma nth_error_middle (l1 l2 : list Point) (a : Point) :
  nth_error (l1 ++ a :: l2) (List.length l1) = Some a.
Proof. induction l1 as [|b l1 IH]; [reflexivity|exact IH]. Qed.



(** X18. A point created at time [tMax] cannot be removed by clicking it
    again: it has become the last point, and the second click changes
    nothing. *)
Theorem point_added_at_right_edge_stays (points : list Point) (x y : Q) :
  editorInv points ->
  (forall q, In q points -> hit x y q = false) ->
  padding <= x -> x <= width - padding ->
  padding <= y -> y <= height - padding ->
  JS.toFixed1 (xToT x) == tMax ->
  handleSvgClick (handleSvgClick points x y) x y = handleSvgClick points x y /\
  List.length (handleSvgClick points x y) = S (List.length points).
Proof.
  intros (Srt & L & H0 & HT & D) N X1 X2 Y1 Y2 Eq.
  rewrite (first_click_inserts points x y N).
  set (new := mkPoint (JS.toFixed1 (xToT x)) (JS.toFixed1 (yToV y))) in *.
  split; [|rewrite sort_by_t_length, length_app; cbn; lia].
  destruct (sort_append_sorted new points Srt) as (l1 & l2 & E & R & A & B).
  rewrite R.
  assert (N2 : l2 = []).
  { destruct l2 as [|c l2]; [reflexivity|exfalso].
    pose proof (B c (or_introl eq_refl)) as Hc.
    rewrite Forall_forall in D.
    destruct (D c) as [[_ G] _]; [rewrite E; apply in_or_app; right; now left|].
    change (p_t new) with (JS.toFixed1 (xToT x)) in Hc. lra. }
  subst l2. rewrite app_nil_r in E. subst l1.
  assert (F : findIndex (hit x y) (points ++ [new]) = Z.of_nat (List.length points)).
  { apply (findIndex_first _ _ _ new).
    - apply nth_error_middle.
    - now apply new_point_is_hit.
    - intros j q Hj Hq. apply N.
      rewrite nth_error_app1 in Hq by exact Hj. eapply nth_error_In, Hq. }
  unfold handleSvgClick. rewrite F, length_app. cbn [List.length].
  destruct (Z.leb_spec 0 (Z.of_nat (List.length points))); [|lia].
  destruct (Z.eqb_spec (Z.of_nat (List.length points))
                       (Z.of_nat (List.length points + 1) - 1)); [|lia].
  cbn [negb]. now rewrite andb_false_r.
Qed.

Lemma point_added_at_right_edge_stays_witness :
  handleSvgClick (handleSvgClick resetPoints 560 117) 560 117
  = handleSvgClick resetPoints 560 117 /\
  List.length (handleSvgClick resetPoints 560 117) = 3%nat.
Proof.
  apply point_added_at_right_edge_stays.
  - apply resetPoints_editorInv.
  - intros q [<-|[<-|[]]]; vm_compute; reflexivity.
  - unfold padding; lra.
  - unfold width, padding; lra.
  - unfold padding; lra.
  - unfold height, padding; lra.
  - vm_compute. reflexivity.
Defined.

(** X15. The pixel/coordinate maps: every pixel reads as a coordinate inside
    the domain; a coordinate of the domain is shown inside the drawing
    area and reads back as itself; a pixel of the drawing area reads as
    the coordinate that is shown at that pixel. *)
Theorem pixel_coordinate_round_trips (t v x y : Q) :
  ((0 <= xToT x /\ xToT x <= tMax) /\ (vMin <= yToV y /\ yToV y <= vMax)) /\
  (0 <= t -> t <= tMax ->
   xToT (tToX t) == t /\ padding <= tToX t /\ tToX t <= width - padding) /\
  (vMin <= v -> v <= vMax ->
   yToV (vToY v) == v /\ padding <= vToY v /\ vToY v <= height - padding) /\
  (padding <= x -> x <= width - padding -> tToX (xToT x) == x) /\
  (padding <= y -> y <= height - padding -> vToY (yToV y) == y).
Proof.
  split; [split|split; [|split; [|split]]].
  - apply (clamp_range _ 0 tMax). unfold tMax. lra.
  - apply (clamp_range _ vMin vMax). unfold vMin, vMax. lra.
  - intros L H. split; [now apply xToT_tToX|].
    assert (E : tToX t == 40 + 26 * t)
      by (unfold tToX, padding, width, tMax; field).
    unfold tMax, padding, width in *. rewrite E. lra.
  - intros L H. split; [now apply yToV_vToY|].
    assert (E : vToY v == 150 - 11 * v)
      by (unfold vToY, padding, height, vMin, vMax; field).
    unfold vMin, vMax, padding, height in *. rewrite E. lra.
  - intros L H. unfold tToX. rewrite (xToT_inside x L H).
    unfold padding, width, tMax. field.
  - intros L H. unfold vToY. rewrite (yToV_inside y L H).
    unfold padding, height, vMin, vMax. field.
Qed.

Lemma pixel_coordinate_round_trips_witness :
  xToT (tToX 5) == 5 /\ yToV (vToY 3) == 3 /\
  tToX (xToT 170) == 170 /\ vToY (yToV 117) == 117.
Proof.
  destruct (pixel_coordinate_round_trips 5 3 170 117) as (_ & A & B & C & D).
  split; [apply A; [lra|unfold tMax; lra]|].
  split; [apply B; unfold vMin, vMax; lra|].
  split; [apply C; unfold padding, width; lra|].
  apply D; unfold padding, height; lra.
Defined.

(** A time after the first point and not after the last lies in a segment. *)
Lemma segment_around (pts : list Point) (d : Point) (t : Q) :
  p_t (hd d pts) < t -> t <= p_t (last pts d) -> pts <> [] ->
  exists l1 p q l2,
    pts = l1 ++ p :: q :: l2 /\ (forall b, In b l1 -> p_t b < t) /\
    p_t p < t /\ t <= p_t q.
Proof.
  induction pts as [|a rest IH]; intros H L N; [contradiction|].
  destruct rest as [|b rest'].
  - cbn in H, L. lra.
  - destruct (Qlt_le_dec (p_t b) t) as [Lb|Lb].
    + destruct IH as (l1 & p & q & l2 & E & A & Lp & Lq);
        [exact Lb|exact L|discriminate|].
      exists (a :: l1), p, q, l2. split; [cbn [app]; now rewrite E|].
      split; [|now split]. intros c [<-|Hc]; [exact H|now apply A].
    + exists [], a, b, rest'. repeat split; [intros c []|exact H|exact Lb].
Qed.

(** X19. A graph drawn in the editor covers the whole simulated horizon: at
    every time after 0 and up to [MAX_TIME] the time lies in a segment of
    the graph, after its start and up to its end, and the body's velocity
    is the linear interpolation on that segment. *)
Theorem editor_graph_covers_horizon (body : BodyParams) (pts : list Point) (t : Q) :
  editorInv pts ->
  isCustomGraph body = Some true -> graphPoints body = Some pts ->
  0 < t -> t <= MAX_TIME ->
  exists l1 p q l2 s,
    pts = l1 ++ p :: q :: l2 /\ p_t p < t /\ t <= p_t q /\
    calculateStateAtTime body t = Ok s /\
    s_v s == p_v p + (p_v q - p_v p) / (p_t q - p_t p) * (t - p_t p).
Proof.
  intros (Srt & L & H0 & HT & D) F G P Le.
  destruct (segment_around pts (mkPoint 0 0) t)
    as (l1 & p & q & l2 & E & A & Lp & Lq).
  - lra.
  - unfold MAX_TIME, tMax in *. lra.
  - intros ->. cbn in L. lia.
  - destruct (integrate_interpolates l1 p q l2 t (x0 body) 0 A Lp Lq)
      as (s & Es & V).
    exists l1, p, q, l2, s. split; [exact E|]. split; [exact Lp|].
    split; [exact Lq|]. split; [|exact V].
    rewrite (calculateStateAtTime_graph body pts t (customGraph_some _ _ F G L) P).
    rewrite (sort_by_t_sorted_id pts Srt), E. exact Es.
Qed.

Lemma editor_graph_covers_horizon_witness :
  exists l1 p q l2 s,
    pick resetPoints 5 3 = l1 ++ p :: q :: l2 /\ p_t p < 12 /\ 12 <= p_t q /\
    calculateStateAtTime (withGraph INITIAL_BODY_A (pick resetPoints 5 3)) 12
    = Ok s /\
    s_v s == p_v p + (p_v q - p_v p) / (p_t q - p_t p) * (12 - p_t p).
Proof.
  apply editor_graph_covers_horizon; try reflexivity.
  - apply picked_editorInv.
  - unfold MAX_TIME. lra.
Defined.

(** X20. Handing a drawn graph over and back: saving the editor's points for
    body A puts body A, and only body A, into piecewise mode on exactly
    those points, keeping its start position; opening the editor on body
    A again shows the saved points unchanged; and switching back to
    standard mode makes the body move by its constant-acceleration
    parameters as before the graph was drawn. *)
Theorem saved_graph_round_trip (ws : Workspace) (pts : list Point) (t : Q) :
  editorInv pts ->
  let saved := saveGraph pts (openGraphBuilder IdA ws) in
  customGraph (ws_bodyA saved) = Some pts /\
  x0 (ws_bodyA saved) = x0 (ws_bodyA ws) /\
  ws_bodyB saved = ws_bodyB ws /\
  isGraphBuilderOpen saved = false /\
  openingPoints (initialPoints (openGraphBuilder IdA saved)) = pts /\
  calculateStateAtTime (switchToStandard (ws_bodyA saved)) t
  = Ok (mkState (x0 (ws_bodyA ws) + v0 (ws_bodyA ws) * t
                 + (1 # 2) * a (ws_bodyA ws) * t * t)
                (v0 (ws_bodyA ws) + a (ws_bodyA ws) * t)).
Proof.
  intros (Srt & L & _) saved. unfold saved, saveGraph, openGraphBuilder.
  cbn [editingBody ws_bodyA ws_bodyB isGraphBuilderOpen].
  split; [apply customGraph_some; [reflexivity|reflexivity|exact L]|].
  split; [reflexivity|]. split; [reflexivity|]. split; [reflexivity|].
  split; [|reflexivity].
  unfold initialPoints. cbn [editingBody ws_bodyA withGraph graphPoints].
  unfold openingPoints.
  destruct (Nat.ltb_spec 0 (List.length pts)); [|lia].
  now apply sort_by_t_sorted_id.
Qed.

Lemma saved_graph_round_trip_witness :
  let ws := mkWorkspace INITIAL_BODY_A INITIAL_BODY_B None false in
  let saved := saveGraph (pick resetPoints 5 3) (openGraphBuilder IdA ws) in
  customGraph (ws_bodyA saved) = Some (pick resetPoints 5 3) /\
  openingPoints (initialPoints (openGraphBuilder IdA saved))
  = pick resetPoints 5 3.
Proof.
  intros ws saved.
  destruct (saved_graph_round_trip ws (pick resetPoints 5 3) 1 picked_editorInv)
    as (A & _ & _ & _ & B & _).
  split; [exact A|exact B].
Defined.

End GraphEditorMore.

(** ** Simulation view: zoom and import *)

(** X21. Both zoom buttons keep the zoom level between 0.2 and 5, and inside
    that range zooming out undoes zooming in as long as zooming in did
    not hit the upper bound. *)
Theorem zoom_stays_in_range (z : Q) :
  2 # 10 <= z -> z <= 5 ->
  (2 # 10 <= zoomIn z /\ zoomIn z <= 5) /\
  (2 # 10 <= zoomOut z /\ zoomOut z <= 5) /\
  (z * (12 # 10) <= 5 -> zoomOut (zoomIn z) == z).
Proof.
  intros L H.
  assert (D : forall q, q / (12 # 10) == q * (10 # 12)) by (intro q; field).
  unfold zoomIn, zoomOut. split; [|split].
  - destruct (min_cases (z * (12 # 10)) 5) as [[A ->]|[A ->]]; lra.
  - pose proof (D z) as Dz. set (w := z / (12 # 10)) in *.
    unfold JS.max. destruct (w <=? 2 # 10) eqn:E; order_hyps; lra.
  - intro A. assert (M : JS.min (z * (12 # 10)) 5 = z * (12 # 10))
      by (unfold JS.min; now rewrite (proj2 (leb_true _ _) A)).
    rewrite M. pose proof (D (z * (12 # 10))) as Dz.
    set (w := z * (12 # 10) / (12 # 10)) in *.
    unfold JS.max. destruct (w <=? 2 # 10) eqn:E; order_hyps; lra.
Qed.

Lemma zoom_stays_in_range_witness :
  (2 # 10 <= zoomIn 1 /\ zoomIn 1 <= 5) /\
  (2 # 10 <= zoomOut 1 /\ zoomOut 1 <= 5) /\
  zoomOut (zoomIn 1) == 1.
Proof.
  destruct (zoom_stays_in_range 1) as (A & B & C); [lra|lra|].
  split; [exact A|]. split; [exact B|]. apply C. lra.
Defined.

(** X22. On screen the bodies are in the order of their positions: at a
    positive zoom level the pixel of a position grows strictly with the
    position, by [5 * zoomLevel] pixels per metre, whatever the pan. *)
Theorem screen_order_matches_positions (zoomLevel panOffset m1 m2 : Q) :
  0 < zoomLevel ->
  getPixelPos zoomLevel panOffset m2 - getPixelPos zoomLevel panOffset m1
  == 5 * zoomLevel * (m2 - m1) /\
  (m1 < m2 <->
   getPixelPos zoomLevel panOffset m1 < getPixelPos zoomLevel panOffset m2).
Proof.
  intro Z.
  assert (E : getPixelPos zoomLevel panOffset m2
              - getPixelPos zoomLevel panOffset m1 == 5 * zoomLevel * (m2 - m1))
    by (unfold getPixelPos, pixelsPerMeter; ring).
  split; [exact E|].
  split; intro H.
  - assert (0 < 5 * zoomLevel * (m2 - m1))
      by (apply Qmult_lt_0_compat; lra).
    lra.
  - destruct (Qlt_le_dec m1 m2) as [A|A]; [exact A|exfalso].
    assert (0 <= 5 * zoomLevel * (m1 - m2))
      by (apply Qmult_le_0_compat; lra).
    assert (5 * zoomLevel * (m2 - m1) == - (5 * zoomLevel * (m1 - m2))) by ring.
    lra.
Qed.

Lemma screen_order_matches_positions_witness :
  getPixelPos 1 0 50 - getPixelPos 1 0 0 == 5 * 1 * (50 - 0) /\
  (0 < 50 <-> getPixelPos 1 0 0 < getPixelPos 1 0 50).
Proof.
  apply screen_order_matches_positions. lra.
Defined.

(** X23. After an import both imported bodies are in standard mode.  A body
    whose three parameters were imported moves by them; and when the
    import has no second body, body B is parked: it is at 999 m, at rest,
    at every time.  An import that returns nothing changes nothing. *)
Theorem import_sets_standard_mode (ws : Workspace) (r : ImportResult) (t : Q) :
  applyImport None ws = ws /\
  customGraph (ws_bodyB (applyImport (Some r) ws)) = None /\
  (forall pa x v acc,
      imp_bodyA r = Some pa ->
      pb_x0 pa = Some x -> pb_v0 pa = Some v -> pb_a pa = Some acc ->
      calculateStateAtTime (ws_bodyA (applyImport (Some r) ws)) t
      = Ok (mkState (x + v * t + (1 # 2) * acc * t * t) (v + acc * t))) /\
  (imp_bodyB r = None ->
   exists s,
     calculateStateAtTime (ws_bodyB (applyImport (Some r) ws)) t = Ok s /\
     s_x s == 999 /\ s_v s == 0).
Proof.
  split; [reflexivity|]. split; [|split].
  - unfold applyImport. cbn [ws_bodyB].
    destruct (imp_bodyB r); reflexivity.
  - intros pa x v acc A X V Acc. unfold applyImport. cbn [ws_bodyA].
    rewrite A. unfold calculateStateAtTime, customGraph, mergeImported.
    cbn [isCustomGraph x0 v0 a]. now rewrite X, V, Acc.
  - intro B. unfold applyImport. cbn [ws_bodyB]. rewrite B.
    unfold calculateStateAtTime, customGraph, parkBody.
    cbn [isCustomGraph x0 v0 a].
    eexists. split; [reflexivity|]. cbn [s_x s_v]. split; ring.
Qed.

Lemma import_sets_standard_mode_witness :
  exists s,
    calculateStateAtTime
      (ws_bodyB (applyImport
                   (Some (mkImport (Some (mkPartial None None (Some 1) (Some 2)
                                             (Some 3) None None None)) None))
                   (mkWorkspace INITIAL_BODY_A triangleBody None false))) 4
    = Ok s /\ s_x s == 999 /\ s_v s == 0.
Proof.
  destruct (import_sets_standard_mode
              (mkWorkspace INITIAL_BODY_A triangleBody None false)
              (mkImport (Some (mkPartial None None (Some 1) (Some 2)
                                 (Some 3) None None None)) None) 4)
    as (_ & _ & _ & B).
  apply B. reflexivity.
Defined.

(** ** Storage service *)

Section StorageProperties.

Variable T : Type.
Variable stringify : T -> option string.
Variable parse : string -> option T.
Variable accepts : LocalStorage -> string -> string -> bool.

(** X24. Save then load is a round trip: when the data serializes, the
    storage accepts it and the serialized form parses back to the data,
    loading the key returns the data, whatever was stored before and
    whatever the default. *)
Theorem save_then_load (key : string) (data defaultValue : T)
        (ls : LocalStorage) (serialized : string) :
  stringify data = Some serialized ->
  accepts ls key serialized = true ->
  parse serialized = Some data ->
  loadFromStorage parse key defaultValue
    (saveToStorage stringify accepts key data ls) = data.
Proof.
  intros S A P. unfold saveToStorage, loadFromStorage, getItem, setItem.
  now rewrite S, A, String.eqb_refl, P.
Qed.

(** X25. A load never fails: a key that is missing, was cleared, or holds a
    string that does not parse gives the default value; and a save that
    fails, in the serialization or in the storage, leaves every key as it
    was. *)
Theorem load_falls_back_to_default (key : string) (data defaultValue : T)
        (ls : LocalStorage) :
  loadFromStorage parse key defaultValue (clearStorage key ls) = defaultValue /\
  (getItem key ls = None -> loadFromStorage parse key defaultValue ls = defaultValue) /\
  (forall str, getItem key ls = Some str -> parse str = None ->
               loadFromStorage parse key defaultValue ls = defaultValue) /\
  ((stringify data = None \/
    exists str, stringify data = Some str /\ accepts ls key str = false) ->
   saveToStorage stringify accepts key data ls = ls).
Proof.
  unfold loadFromStorage, clearStorage, getItem, removeItem, saveToStorage.
  split; [now rewrite String.eqb_refl|]. split; [now intros ->|]. split.
  - intros str -> P. now rewrite P.
  - intros [->|(str & -> & ->)]; reflexivity.
Qed.

(** X26. Keys do not interfere: saving or clearing one key does not change
    what is loaded from another. *)
Theorem other_keys_are_untouched (key key' : string) (data defaultValue : T)
        (ls : LocalStorage) :
  key' <> key ->
  loadFromStorage parse key' defaultValue
    (saveToStorage stringify accepts key data ls)
  = loadFromStorage parse key' defaultValue ls /\
  loadFromStorage parse key' defaultValue (clearStorage key ls)
  = loadFromStorage parse key' defaultValue ls.
Proof.
  intro N. apply String.eqb_neq in N.
  unfold loadFromStorage, clearStorage, getItem, removeItem, saveToStorage, setItem.
  split.
  - destruct (stringify data) as [str|]; [|reflexivity].
    destruct (accepts ls key str); [|reflexivity]. now rewrite N.
  - now rewrite N.
Qed.

End StorageProperties.

(** ** The crash marker *)


Lemma constant_velocity_graph_witness :
  exists s,
    calculateStateAtTime steadyBody 4 = Ok s /\ s_x s == 14 /\ s_v s == 3.
Proof.
  assert (L0 : 0 <= 4) by (cbn; lra).
  assert (LT : 4 <= 10) by (cbn; lra).
  destruct (constant_velocity_graph steadyBody 3 10 4 eq_refl eq_refl L0 LT)
    as (s & E & X & V).
  exists s. split; [exact E|]. split; [rewrite X; reflexivity|exact V].
Defined.

Lemma save_then_load_witness :
  loadFromStorage parseBool "physics_flow_theme" false
    (saveToStorage stringifyBool unlimited "physics_flow_theme" true emptyStorage)
  = true.
Proof.
  apply (save_then_load bool stringifyBool parseBool unlimited
           "physics_flow_theme" true false emptyStorage "true");
    reflexivity.
Defined.

Lemma load_falls_back_to_default_witness :
  loadFromStorage parseBool "physics_flow_theme" true
    (clearStorage "physics_flow_theme"
       (saveToStorage stringifyBool unlimited "physics_flow_theme" false
          emptyStorage))
  = true /\
  loadFromStorage parseBool "physics_flow_theme" true emptyStorage = true.
Proof.
  destruct (load_falls_back_to_default bool stringifyBool parseBool unlimited
              "physics_flow_theme" false true
              (saveToStorage stringifyBool unlimited "physics_flow_theme" false
                 emptyStorage)) as (A & _).
  destruct (load_falls_back_to_default bool stringifyBool parseBool unlimited
              "physics_flow_theme" false true emptyStorage) as (_ & B & _).
  split; [exact A|apply B; reflexivity].
Defined.

Lemma other_keys_are_untouched_witness :
  loadFromStorage parseBool "physics_flow_language" false
    (saveToStorage stringifyBool unlimited "physics_flow_theme" true emptyStorage)
  = loadFromStorage parseBool "physics_flow_language" false emptyStorage.
Proof.
  apply (other_keys_are_untouched bool stringifyBool parseBool unlimited
           "physics_flow_theme" "physics_flow_language" true false emptyStorage).
  discriminate.
Defined.

(** * The sampling loop in double precision *)

(** ** The loop as a fold over the values of its variable *)

Lemma dbl_loopBody_eq (bodyA bodyB : Dbl.BodyParams) (t : float)
  (ls : Dbl.LoopState) :
  Dbl.loopBody bodyA bodyB t ls =
  if negb (Dbl.foundMeet ls) && (0 <? t)%float && Dbl.flipAt bodyA bodyB t
  then Dbl.mkLoop (Dbl.data ls ++ [Dbl.stepAt bodyA bodyB t])
         (Some (Dbl.mkMeet t (Dbl.s_x (Dbl.calculateStateAtTime bodyA t)))) true
  else Dbl.mkLoop (Dbl.data ls ++ [Dbl.stepAt bodyA bodyB t])
         (Dbl.meet ls) (Dbl.foundMeet ls).
Proof.
  unfold Dbl.loopBody, Dbl.flipAt, Dbl.stepAt. cbv zeta.
  destruct (negb (Dbl.foundMeet ls) && (0 <? t)%float); cbn [andb].
  - destruct (Dbl.crossed _ _ _ _); cbn [Dbl.data Dbl.meet Dbl.foundMeet];
      now destruct (Dbl.calculateStateAtTime bodyA t),
                   (Dbl.calculateStateAtTime bodyB t).
  - now destruct (Dbl.calculateStateAtTime bodyA t),
                 (Dbl.calculateStateAtTime bodyB t).
Qed.

Lemma dbl_simLoop_fold (bodyA bodyB : Dbl.BodyParams) (fuel : nat) :
  forall t ls ts,
    Dbl.timesFrom fuel t = Some ts ->
    Dbl.simLoop fuel bodyA bodyB t ls =
    Ok (fold_left (fun l u => Dbl.loopBody bodyA bodyB u l) ts ls).
Proof.
  induction fuel as [|fuel IH]; intros t ls ts H; [discriminate|].
  cbn [Dbl.timesFrom Dbl.simLoop] in *.
  destruct (t <=? Dbl.MAX_TIME)%float.
  - destruct (Dbl.timesFrom fuel (t + Dbl.TIME_STEP)%float) as [ts'|] eqn:E;
      [|discriminate].
    cbn in H. injection H as <-. cbn [fold_left]. now apply IH.
  - injection H as <-. reflexivity.
Qed.

(** The guard [t <= MAX_TIME] holds for the first 200 values of the loop
    variable and fails for the next one. *)
Lemma dbl_timesFrom :
  Dbl.timesFrom 202 0 = Some (map Dbl.timeAt (seq 0 200)).
Proof. vm_compute. reflexivity. Qed.

Lemma dbl_labels :
  map (fun k => Dbl.toFixed1 (Dbl.timeAt k)) (seq 0 200) =
  map Dbl.label (seq 0 200).
Proof. vm_compute. reflexivity. Qed.

(** From the second iteration on the loop variable is above 0, and within
    the horizon. *)
Lemma dbl_times_in_range :
  forallb (fun k => (0 <? Dbl.timeAt (S k))%float
                    && negb (Dbl.timeAt (S k) <=? 0)%float
                    && (Dbl.timeAt (S k) <=? Dbl.MAX_TIME)%float)
          (seq 0 199) = true.
Proof. vm_compute. reflexivity. Qed.

Lemma dbl_time_in_range (k : nat) :
  (1 <= k < 200)%nat ->
  (0 <? Dbl.timeAt k)%float = true /\
  (Dbl.timeAt k <=? 0)%float = false /\
  (Dbl.timeAt k <=? Dbl.MAX_TIME)%float = true.
Proof.
  destruct k as [|k]; intro Hk; [lia|].
  pose proof dbl_times_in_range as P. rewrite forallb_forall in P.
  assert (I : In k (seq 0 199)) by (apply in_seq; lia).
  apply P in I. apply andb_true_iff in I as [I L].
  apply andb_true_iff in I as [I N]. apply negb_true_iff in N. auto.
Qed.

Lemma dbl_simulate_fold (bodyA bodyB : Dbl.BodyParams) :
  Dbl.simulate bodyA bodyB =
  Ok (fold_left (fun l u => Dbl.loopBody bodyA bodyB u l)
        (map Dbl.timeAt (seq 0 200)) (Dbl.mkLoop [] None false)).
Proof. apply dbl_simLoop_fold, dbl_timesFrom. Qed.

Lemma dbl_fold_data (bodyA bodyB : Dbl.BodyParams) (ts : list float) :
  forall ls,
    Dbl.data (fold_left (fun l u => Dbl.loopBody bodyA bodyB u l) ts ls) =
    Dbl.data ls ++ map (Dbl.stepAt bodyA bodyB) ts.
Proof.
  induction ts as [|t ts IH]; intro ls; cbn [fold_left map].
  - now rewrite app_nil_r.
  - rewrite IH, dbl_loopBody_eq.
    destruct (_ && _); cbn [Dbl.data]; now rewrite <- app_assoc.
Qed.

Lemma dbl_fold_found (bodyA bodyB : Dbl.BodyParams) (ts : list float) :
  forall ls, Dbl.foundMeet ls = true ->
    Dbl.meet (fold_left (fun l u => Dbl.loopBody bodyA bodyB u l) ts ls) =
    Dbl.meet ls.
Proof.
  induction ts as [|t ts IH]; intros ls F; cbn [fold_left]; [reflexivity|].
  rewrite IH; rewrite dbl_loopBody_eq, F; reflexivity.
Qed.

Lemma dbl_fold_meet (bodyA bodyB : Dbl.BodyParams) (ts : list float) :
  forall ls, Dbl.foundMeet ls = false ->
    Dbl.meet (fold_left (fun l u => Dbl.loopBody bodyA bodyB u l) ts ls) =
    match find (fun t => (0 <? t)%float && Dbl.flipAt bodyA bodyB t) ts with
    | Some t => Some (Dbl.mkMeet t (Dbl.s_x (Dbl.calculateStateAtTime bodyA t)))
    | None => Dbl.meet ls
    end.
Proof.
  induction ts as [|t ts IH]; intros ls F; cbn [fold_left find]; [reflexivity|].
  destruct ((0 <? t)%float && Dbl.flipAt bodyA bodyB t) eqn:C.
  - rewrite dbl_fold_found; rewrite dbl_loopBody_eq, F; cbn [negb andb];
      rewrite C; reflexivity.
  - rewrite IH; rewrite dbl_loopBody_eq, F; cbn [negb andb];
      rewrite C; reflexivity.
Qed.

(** The first iteration at which the crossing test succeeds, if any. *)
Lemma dbl_simulate_meet (bodyA bodyB : Dbl.BodyParams) (ls : Dbl.LoopState) :
  Dbl.simulate bodyA bodyB = Ok ls ->
  (Dbl.meet ls = None /\
   forall j, (1 <= j < 200)%nat ->
             Dbl.flipAt bodyA bodyB (Dbl.timeAt j) = false) \/
  (exists k, (1 <= k < 200)%nat /\
     Dbl.meet ls =
       Some (Dbl.mkMeet (Dbl.timeAt k)
               (Dbl.s_x (Dbl.calculateStateAtTime bodyA (Dbl.timeAt k)))) /\
     Dbl.flipAt bodyA bodyB (Dbl.timeAt k) = true /\
     forall j, (1 <= j < k)%nat ->
               Dbl.flipAt bodyA bodyB (Dbl.timeAt j) = false).
Proof.
  rewrite dbl_simulate_fold. intro H. apply Ok_inj in H. rewrite <- H.
  rewrite dbl_fold_meet by reflexivity. cbn [Dbl.meet].
  destruct (find _ (map Dbl.timeAt (seq 0 200))) as [t|] eqn:F.
  - right. apply find_first in F as [i [N [T L]]].
    apply (nth_error_map_seq Dbl.timeAt 200 0) in N as [Hi ->]. cbn [plus] in *.
    apply andb_true_iff in T as [P T].
    destruct i as [|k]; [discriminate P|].
    exists (S k). split; [lia|]. split; [reflexivity|].
    split; [exact T|]. intros j Hj.
    assert (Lj : (0 <? Dbl.timeAt j)%float
                 && Dbl.flipAt bodyA bodyB (Dbl.timeAt j) = false).
    { apply (L j); [lia|].
      apply (nth_error_map_seq Dbl.timeAt 200 0). split; [lia|reflexivity]. }
    destruct (dbl_time_in_range j) as [P' _]; [lia|].
    rewrite P' in Lj. exact Lj.
  - left. split; [reflexivity|]. intros j Hj.
    assert (Lj : (0 <? Dbl.timeAt j)%float
                 && Dbl.flipAt bodyA bodyB (Dbl.timeAt j) = false).
    { apply (find_none _ _ F). apply in_map, in_seq. lia. }
    destruct (dbl_time_in_range j Hj) as [P' _].
    rewrite P' in Lj. exact Lj.
Qed.

(** ** The timeline and the meeting point the code computes *)

(** X6. For every pair of bodies the sampling pass returns, and its
    timeline has exactly 200 samples: the loop variable, to which
    [TIME_STEP] is added in double precision, is above [MAX_TIME] after
    200 additions, so there is no sample at time 20.  Sample [k] is
    labelled with the double nearest to [k / 10] and carries the states
    the calculator returns for the two bodies at the value the loop
    variable has then. *)
Theorem timeline_is_calculator_on_loop_values (bodyA bodyB : Dbl.BodyParams) :
  exists ls,
    Dbl.simulate bodyA bodyB = Ok ls /\
    List.length (Dbl.data ls) = 200%nat /\
    (forall k, (k < 200)%nat ->
       nth_error (Dbl.data ls) k =
       Some (Dbl.mkStep (Dbl.label k)
               (Dbl.calculateStateAtTime bodyA (Dbl.timeAt k))
               (Dbl.calculateStateAtTime bodyB (Dbl.timeAt k)))) /\
    (Dbl.timeAt 199 <=? Dbl.MAX_TIME)%float = true /\
    (Dbl.timeAt 200 <=? Dbl.MAX_TIME)%float = false.
Proof.
  eexists. split; [apply dbl_simulate_fold|].
  rewrite dbl_fold_data. cbn [Dbl.data app]. split; [|split; [|split]].
  - now rewrite !length_map, length_seq.
  - intros k Hk. rewrite map_map.
    apply (nth_error_map_seq
             (fun i => Dbl.stepAt bodyA bodyB (Dbl.timeAt i)) 200 0).
    split; [exact Hk|]. cbn [plus]. unfold Dbl.stepAt. f_equal.
    assert (E : nth_error
                  (map (fun k => Dbl.toFixed1 (Dbl.timeAt k)) (seq 0 200)) k
                = Some (Dbl.label k)).
    { rewrite dbl_labels. apply (nth_error_map_seq Dbl.label 200 0). now split. }
    apply (nth_error_map_seq
             (fun k => Dbl.toFixed1 (Dbl.timeAt k)) 200 0) in E as [_ E].
    now symmetry.
  - vm_compute. reflexivity.
  - vm_compute. reflexivity.
Qed.

(** X27. The meeting point the code reports, for every pair of bodies: it
    is taken at the first iteration [k], from 1 to 199, at which the
    crossing test succeeds on the states at the loop value and at the
    loop value less [TIME_STEP]; its time is the loop value itself (not
    the label of the sample) and its position is that of body A there.
    When the test succeeds at no iteration the meeting point is none. *)
Theorem meeting_point_is_first_successful_test (bodyA bodyB : Dbl.BodyParams) :
  exists ls,
    Dbl.simulate bodyA bodyB = Ok ls /\
    match Dbl.meet ls with
    | Some m =>
        exists k, (1 <= k < 200)%nat /\
          Dbl.m_t m = Dbl.timeAt k /\
          Dbl.m_x m = Dbl.s_x (Dbl.calculateStateAtTime bodyA (Dbl.timeAt k)) /\
          Dbl.flipAt bodyA bodyB (Dbl.timeAt k) = true /\
          forall j, (1 <= j < k)%nat ->
                    Dbl.flipAt bodyA bodyB (Dbl.timeAt j) = false
    | None =>
        forall j, (1 <= j < 200)%nat ->
                  Dbl.flipAt bodyA bodyB (Dbl.timeAt j) = false
    end.
Proof.
  eexists. split; [apply dbl_simulate_fold|].
  destruct (dbl_simulate_meet bodyA bodyB _ (dbl_simulate_fold bodyA bodyB))
    as [[M N]|(k & Hk & M & T & N)]; rewrite M.
  - exact N.
  - exists k. cbn [Dbl.m_t Dbl.m_x]. auto.
Qed.

Lemma dbl_flipAt_sym (bodyA bodyB : Dbl.BodyParams) (t : float) :
  Dbl.flipAt bodyA bodyB t = Dbl.flipAt bodyB bodyA t.
Proof. unfold Dbl.flipAt, Dbl.crossed. apply orb_comm. Qed.

(** X31. In double precision too, detection does not depend on which body
    is called A: with the two bodies exchanged the meeting point is
    reported at the same time, or not at all in both cases; the position
    recorded is the one of the body passed first, both taken from the
    same sample. *)
Theorem crossing_time_is_symmetric_in_doubles (bodyA bodyB : Dbl.BodyParams) :
  exists ls ls',
    Dbl.simulate bodyA bodyB = Ok ls /\
    Dbl.simulate bodyB bodyA = Ok ls' /\
    match Dbl.meet ls, Dbl.meet ls' with
    | Some m, Some m' =>
        Dbl.m_t m = Dbl.m_t m' /\
        exists k st,
          nth_error (Dbl.data ls) k = Some st /\
          Dbl.m_x m = Dbl.s_x (Dbl.st_bodyA st) /\
          Dbl.m_x m' = Dbl.s_x (Dbl.st_bodyB st)
    | None, None => True
    | _, _ => False
    end.
Proof.
  eexists. eexists.
  split; [apply dbl_simulate_fold|]. split; [apply dbl_simulate_fold|].
  destruct (dbl_simulate_meet bodyA bodyB _ (dbl_simulate_fold bodyA bodyB))
    as [[M N]|(i & Hi & M & T & N)];
    destruct (dbl_simulate_meet bodyB bodyA _ (dbl_simulate_fold bodyB bodyA))
      as [[M' N']|(i' & Hi' & M' & T' & N')];
    rewrite M, M'.
  - exact I.
  - rewrite <- dbl_flipAt_sym, N in T' by exact Hi'. discriminate.
  - rewrite dbl_flipAt_sym, N' in T by exact Hi. discriminate.
  - assert (Ei : i = i').
    { destruct (Nat.lt_trichotomy i i') as [C|[C|C]]; [|exact C|].
      - rewrite dbl_flipAt_sym, (N' i) in T by lia. discriminate.
      - rewrite <- dbl_flipAt_sym, (N i') in T' by lia. discriminate. }
    subst i'. cbn [Dbl.m_t Dbl.m_x]. split; [reflexivity|].
    exists i, (Dbl.stepAt bodyA bodyB (Dbl.timeAt i)).
    split; [|now split].
    rewrite dbl_fold_data, map_map. cbn [Dbl.data app].
    apply (nth_error_map_seq
             (fun i => Dbl.stepAt bodyA bodyB (Dbl.timeAt i)) 200 0).
    split; [lia|reflexivity].
Qed.

(** X32. The crash marker in double precision: it is never drawn at cursor
    0, and at the end of the horizon it is drawn exactly when a meeting
    point was found, because every reported meeting time is above 0 and
    not above [MAX_TIME]. *)
Theorem crash_marker_in_doubles (bodyA bodyB : Dbl.BodyParams) :
  exists ls,
    Dbl.simulate bodyA bodyB = Ok ls /\
    Dbl.crashMarkerVisible (Dbl.meet ls) 0 = false /\
    (Dbl.crashMarkerVisible (Dbl.meet ls) Dbl.MAX_TIME = true <->
     Dbl.meet ls <> None).
Proof.
  eexists. split; [apply dbl_simulate_fold|].
  destruct (dbl_simulate_meet bodyA bodyB _ (dbl_simulate_fold bodyA bodyB))
    as [[M _]|(k & Hk & M & _ & _)];
    rewrite M; cbn [Dbl.crashMarkerVisible Dbl.m_t].
  - split; [reflexivity|]. split; [discriminate|intro H; now contradiction H].
  - destruct (dbl_time_in_range k Hk) as (_ & Z & H). split; [exact Z|].
    split; [discriminate|]. intros _. exact H.
Qed.

(** ** Scenarios *)

(** C3. The meeting point is not decided by the pairs of consecutive
    samples.  Body A starts at 0.7 with velocity 1, body B at 1 with
    velocity -0.5, neither accelerates.  In the timeline body A is
    strictly behind body B at sample 2 and not behind it at sample 3, so
    this pair of consecutive samples flips; yet the meeting point is
    none.  At the iteration of sample 3 the previous state is computed
    anew at the loop value less [TIME_STEP], which is not the loop value
    of sample 2, and the two bodies are level there. *)
Theorem sampled_flip_goes_unreported :
  exists ls s2 s3,
    Dbl.simulate Dbl.levelBodyA Dbl.levelBodyB = Ok ls /\
    nth_error (Dbl.data ls) 2 = Some s2 /\
    nth_error (Dbl.data ls) 3 = Some s3 /\
    (Dbl.s_x (Dbl.st_bodyA s2) <? Dbl.s_x (Dbl.st_bodyB s2))%float = true /\
    (Dbl.s_x (Dbl.st_bodyB s3) <=? Dbl.s_x (Dbl.st_bodyA s3))%float = true /\
    Dbl.flips s2 s3 = true /\
    Dbl.meet ls = None /\
    (Dbl.timeAt 3 - Dbl.TIME_STEP =? Dbl.timeAt 2)%float = false /\
    (Dbl.s_x (Dbl.calculateStateAtTime Dbl.levelBodyA
                (Dbl.timeAt 3 - Dbl.TIME_STEP)) =?
     Dbl.s_x (Dbl.calculateStateAtTime Dbl.levelBodyB
                (Dbl.timeAt 3 - Dbl.TIME_STEP)))%float = true.
Proof.
  eexists. eexists. eexists.
  split; [vm_compute; reflexivity|].
  split; [vm_compute; reflexivity|].
  split; [vm_compute; reflexivity|].
  repeat split; vm_compute; reflexivity.
Qed.

(** C9. With body A at [x0 = 0, v0 = 5, a = 0] and body B at
    [x0 = 100, v0 = 10, a = 0] the sampling pass over the full horizon
    returns normally, with all its 200 samples, and its meeting point is
    none: the absence of a crossing is a value of the result, not a
    failure. *)
Theorem no_crossing_scenario :
  exists ls,
    Dbl.simulate Dbl.INITIAL_BODY_A Dbl.parallelBodyB = Ok ls /\
    Dbl.meet ls = None /\
    List.length (Dbl.data ls) = 200%nat.
Proof.
  eexists. split; [vm_compute; reflexivity|].
  split; vm_compute; reflexivity.
Qed.

(** X28. The crossing scenario in double precision: for the two initial
    bodies the meeting point is reported at iteration 72, the sample
    labelled 7.2; its time, the loop value there, is within 0.1 of
    [50/7], and body A is strictly behind body B at the sample before
    and not behind it at this one. *)
Theorem crossing_scenario_in_doubles :
  exists ls m s71 s72,
    Dbl.simulate Dbl.INITIAL_BODY_A Dbl.INITIAL_BODY_B = Ok ls /\
    Dbl.meet ls = Some m /\
    Dbl.m_t m = Dbl.timeAt 72 /\
    Dbl.toFixed1 (Dbl.m_t m) = 7.2%float /\
    Qabs (Dbl.exact (Dbl.m_t m) - (50 # 7)) <= 1 # 10 /\
    nth_error (Dbl.data ls) 71 = Some s71 /\
    nth_error (Dbl.data ls) 72 = Some s72 /\
    Dbl.flips s71 s72 = true /\
    Dbl.m_x m = Dbl.s_x (Dbl.st_bodyA s72).
Proof.
  eexists. eexists. eexists. eexists.
  split; [vm_compute; reflexivity|].
  split; [vm_compute; reflexivity|].
  split; [vm_compute; reflexivity|].
  split; [vm_compute; reflexivity|].
  split; [vm_compute; discriminate|].
  split; [vm_compute; reflexivity|].
  split; [vm_compute; reflexivity|].
  split; vm_compute; reflexivity.
Qed.

(** X29. A crossing at the horizon is not reported.  Body A moves at
    velocity 1 from position 0 and body B rests at position 20: the
    calculator puts both at position 20 at [MAX_TIME], but the timeline
    ends with the sample labelled 19.9, where body A is still strictly
    behind body B, and the meeting point is none. *)
Theorem crossing_at_horizon_goes_unreported :
  exists ls last,
    Dbl.simulate Dbl.horizonBodyA Dbl.horizonBodyB = Ok ls /\
    (Dbl.s_x (Dbl.calculateStateAtTime Dbl.horizonBodyA Dbl.MAX_TIME) =?
     Dbl.s_x (Dbl.calculateStateAtTime Dbl.horizonBodyB Dbl.MAX_TIME))%float
    = true /\
    List.length (Dbl.data ls) = 200%nat /\
    nth_error (Dbl.data ls) 199 = Some last /\
    Dbl.st_t last = 19.9%float /\
    (Dbl.s_x (Dbl.st_bodyA last) <? Dbl.s_x (Dbl.st_bodyB last))%float = true /\
    Dbl.meet ls = None.
Proof.
  eexists. eexists.
  split; [vm_compute; reflexivity|].
  split; [vm_compute; reflexivity|].
  split; [vm_compute; reflexivity|].
  split; [vm_compute; reflexivity|].
  repeat split; vm_compute; reflexivity.
Qed.

(** X30. A meeting point without a flip in the timeline.  Body A starts at
    -0.02 with velocity 1.2 and acceleration 1, body B at 0 with velocity
    1 and acceleration 2: body A is strictly behind body B at every one
    of the 200 samples, yet a meeting point is reported, at iteration 3,
    because the state computed anew at the loop value less [TIME_STEP]
    has body A ahead of body B. *)
Theorem meeting_reported_without_sampled_flip :
  exists ls m,
    Dbl.simulate Dbl.trailingBodyA Dbl.leadingBodyB = Ok ls /\
    List.length (Dbl.data ls) = 200%nat /\
    forallb (fun s => (Dbl.s_x (Dbl.st_bodyA s) <? Dbl.s_x (Dbl.st_bodyB s))%float)
            (Dbl.data ls) = true /\
    Dbl.meet ls = Some m /\
    Dbl.m_t m = Dbl.timeAt 3 /\
    (Dbl.s_x (Dbl.calculateStateAtTime Dbl.leadingBodyB
                (Dbl.timeAt 3 - Dbl.TIME_STEP)) <?
     Dbl.s_x (Dbl.calculateStateAtTime Dbl.trailingBodyA
                (Dbl.timeAt 3 - Dbl.TIME_STEP)))%float = true.
Proof.
  eexists. eexists.
  split; [vm_compute; reflexivity|].
  split; [vm_compute; reflexivity|].
  split; [vm_compute; reflexivity|].
  split; [vm_compute; reflexivity|].
  split; vm_compute; reflexivity.
Qed.
